(** * PUFZIN: device registry, PUF simulator, proof cache and noise injector

    A shallow embedding of the parts of the repository that the specification
    talks about:

    - [contracts/DeviceRegistry.sol]     (module [Registry])
    - [utils/PUFSimulator.js] and
      [circuits/templates/DeviceAuth.circom] (module [Commitment])
    - [scripts/run_experiments.js], class [ProofCache] (module [ProofCache])
    - [test/experiments.js], [addNoiseToResponse] (module [Noise])

    Solidity words are integers ([Z]); mappings are finite maps with the
    all-zero default value on a missing key; [require] and reverts are an
    error monad over the contract storage, with the event log as output.
    JavaScript numbers are the binary64 numbers of the library's
    [SpecFloat]; what their arithmetic is to give is stated a second time
    over the rationals, and the two are proved to agree. *)

From Stdlib Require Import ZArith String List Lia Bool Ascii.
From Stdlib Require Import Floats.SpecFloat.
From Stdlib Require Import QArith Qround Qpower Lqa.
From Stdlib Require HexString.
From stdpp Require Import base option list gmap strings pretty.

Local Open Scope Z_scope.

(** * The device registry contract *)
Module Registry.

(** ** Solidity value types *)

Abbreviation uint256 := Z (only parsing).
Abbreviation bytes32 := Z (only parsing).
Abbreviation address := Z (only parsing).
Abbreviation bytes := (list Byte.byte) (only parsing).

(** [type(uint256).max] *)
Definition MAX_UINT256 : Z := 2 ^ 256 - 1.

Definition is_uint256 (x : Z) : Prop := 0 <= x <= MAX_UINT256.

(** ** Storage layout *)

Record Device := mkDevice {
  deviceId : bytes32;
  pubKeyHash : bytes32;
  helperData : bytes;
  registeredAt : uint256;
  isActive : bool;
  owner : address
}.

Record EncryptedTransaction := mkEncryptedTransaction {
  tx_deviceId : bytes32;
  tx_dataHash : bytes32;
  tx_encryptedData : bytes;
  tx_timestamp : uint256
}.

(** Contract storage.  [_owner] and [_paused] are the storage slots of
    the inherited [Ownable] and [Pausable] base contracts (OpenZeppelin). *)
Record State := mkState {
  devices : gmap Z Device;
  transactions : gmap Z (list EncryptedTransaction);
  totalDevices : uint256;
  verifier : address;
  _owner : address;
  _paused : bool
}.

(** The value a mapping yields on a key that was never written. *)
Definition zeroDevice : Device :=
  {| deviceId := 0; pubKeyHash := 0; helperData := [];
     registeredAt := 0; isActive := false; owner := 0 |}.

(** [devices[id]] *)
Definition devices_at (st : State) (id : bytes32) : Device :=
  default zeroDevice (devices st !! id).

(** [transactions[id]] *)
Definition transactions_at (st : State) (id : bytes32)
  : list EncryptedTransaction :=
  default [] (transactions st !! id).

(** ** Events

    The four events of [DeviceRegistry] and the one it inherits from
    [Ownable]. *)

Inductive Event :=
| DeviceRegistered (deviceId : bytes32) (timestamp : uint256)
| DeviceDeactivated (deviceId : bytes32) (timestamp : uint256)
| AuthenticationAttempt (deviceId : bytes32) (success : bool)
| TransactionRecorded (deviceId : bytes32) (dataHash : bytes32)
                      (timestamp : uint256)
| OwnershipTransferred (previousOwner newOwner : address).

(** ** Call environment: [msg.sender] and [block.timestamp] *)

Record Env := mkEnv {
  msg_sender : address;
  block_timestamp : uint256
}.

(** ** Groth16 proof arguments of [verifyProof] *)

Record Groth16Proof := mkProof {
  a : uint256 * uint256;
  b : (uint256 * uint256) * (uint256 * uint256);
  c : uint256 * uint256
}.

(** [uint256[3] calldata input] *)
Record PublicInputs := mkInputs {
  input0 : uint256;
  input1 : uint256;
  input2 : uint256
}.

(** ** The transaction monad: storage, event log, revert *)

Inductive Result (A : Type) :=
| Ok (ret : A) (st : State) (log : list Event)
| Revert (reason : string).
Arguments Ok {A} ret st log.
Arguments Revert {A} reason.

Definition Tx (A : Type) : Type := State -> Result A.

#[global] Instance Tx_ret : MRet Tx := fun A x st => Ok x st [].

#[global] Instance Tx_bind : MBind Tx := fun A B f m st =>
  match m st with
  | Ok x st1 log1 =>
      match f x st1 with
      | Ok y st2 log2 => Ok y st2 (log1 ++ log2)
      | Revert r => Revert r
      end
  | Revert r => Revert r
  end.

#[global] Instance Tx_fmap : FMap Tx := fun A B f m =>
  x ← m; mret (f x).

Definition require (cond : bool) (reason : string) : Tx unit :=
  fun st => if cond then Ok tt st [] else Revert reason.

Definition storage : Tx State := fun st => Ok st st [].

Definition sstore (f : State -> State) : Tx unit :=
  fun st => Ok tt (f st) [].

Definition emit (e : Event) : Tx unit := fun st => Ok tt st [e].

(** ** Revert reasons, with the names the specification gives them *)

Definition AlreadyRegistered : string := "Device already registered".
Definition InvalidDeviceId : string := "Invalid device ID".
Definition InvalidPubKeyHash : string := "Invalid public key hash".
Definition NotActive : string := "Device not active".
Definition BindingMismatch : string := "Device ID mismatch".
Definition ProofRejected : string := "Invalid proof".
(** Reverts of the base contracts and of checked arithmetic. *)
Definition EnforcedPause : string := "EnforcedPause".
Definition OwnableUnauthorizedAccount : string := "OwnableUnauthorizedAccount".
Definition OwnableInvalidOwner : string := "OwnableInvalidOwner".
Definition PanicOverflow : string := "Panic(0x11)".

(** ** Storage writes *)

Definition set_device (id : bytes32) (d : Device) (st : State) : State :=
  {| devices := <[id := d]> (devices st);
     transactions := transactions st;
     totalDevices := totalDevices st;
     verifier := verifier st;
     _owner := _owner st;
     _paused := _paused st |}.

Definition set_totalDevices (n : uint256) (st : State) : State :=
  {| devices := devices st;
     transactions := transactions st;
     totalDevices := n;
     verifier := verifier st;
     _owner := _owner st;
     _paused := _paused st |}.

(** [transactions[id].push(t)] *)
Definition push_transaction (id : bytes32) (t : EncryptedTransaction)
                            (st : State) : State :=
  {| devices := devices st;
     transactions := <[id := transactions_at st id ++ [t]]> (transactions st);
     totalDevices := totalDevices st;
     verifier := verifier st;
     _owner := _owner st;
     _paused := _paused st |}.

Definition set_owner (o : address) (st : State) : State :=
  {| devices := devices st;
     transactions := transactions st;
     totalDevices := totalDevices st;
     verifier := verifier st;
     _owner := o;
     _paused := _paused st |}.

(** ** Modifiers of the base contracts *)

Definition whenNotPaused : Tx unit :=
  st ← storage; require (negb (_paused st)) EnforcedPause.

Definition onlyOwner (env : Env) : Tx unit :=
  st ← storage; require (msg_sender env =? _owner st) OwnableUnauthorizedAccount.

(** [x++] on a [uint256] under Solidity 0.8 checked arithmetic. *)
Definition increment_totalDevices : Tx unit :=
  st ← storage;
  require (totalDevices st <? MAX_UINT256) PanicOverflow;;
  sstore (set_totalDevices (totalDevices st + 1)).

(** ** View functions *)

Definition getTransactionCount (st : State) (deviceId : bytes32) : uint256 :=
  Z.of_nat (length (transactions_at st deviceId)).

Definition isDeviceRegistered (st : State) (deviceId : bytes32) : bool :=
  negb (registeredAt (devices_at st deviceId) =? 0).

Definition isDeviceActive (st : State) (deviceId : bytes32) : bool :=
  isActive (devices_at st deviceId).

(** ** Constructor

    [Ownable(initialOwner)] rejects the zero address and otherwise runs
    [_transferOwnership(initialOwner)] on the empty storage, which logs the
    first owner; [Pausable] starts unpaused. *)

Definition deployment (initialOwner verifierAddress : address) : Result unit :=
  if initialOwner =? 0 then Revert OwnableInvalidOwner
  else Ok tt {| devices := ∅; transactions := ∅; totalDevices := 0;
                verifier := verifierAddress;
                _owner := initialOwner; _paused := false |}
          [OwnershipTransferred 0 initialOwner].

(** The storage of the deployed contract. *)
Definition constructor (initialOwner verifierAddress : address) : option State :=
  match deployment initialOwner verifierAddress with
  | Ok _ st _ => Some st
  | Revert _ => None
  end.

Section Contract.

(** [verifier.verifyProof(a, b, c, input)]: a [view] call into the
    generated Groth16 verifier, which answers with a boolean. *)
Variable verifyProof : Groth16Proof -> PublicInputs -> bool.

(** ** External functions *)

Definition registerDevice (env : Env) (deviceId pubKeyHash : bytes32)
                          (helperData : bytes) : Tx bool :=
  whenNotPaused;;
  st ← storage;
  require (registeredAt (devices_at st deviceId) =? 0) AlreadyRegistered;;
  require (negb (deviceId =? 0)) InvalidDeviceId;;
  require (negb (pubKeyHash =? 0)) InvalidPubKeyHash;;
  sstore (set_device deviceId
            {| deviceId := deviceId;
               pubKeyHash := pubKeyHash;
               helperData := helperData;
               registeredAt := block_timestamp env;
               isActive := true;
               owner := msg_sender env |});;
  increment_totalDevices;;
  emit (DeviceRegistered deviceId (block_timestamp env));;
  mret true.

Definition authenticate (env : Env) (deviceId : bytes32)
                        (prf : Groth16Proof) (input : PublicInputs)
  : Tx bool :=
  whenNotPaused;;
  st ← storage;
  require (isActive (devices_at st deviceId)) NotActive;;
  let deviceIdNum := deviceId in
  require (input0 input =? deviceIdNum) BindingMismatch;;
  let isValid := verifyProof prf input in
  emit (AuthenticationAttempt deviceId isValid);;
  mret isValid.

Definition recordTransaction (env : Env) (deviceId dataHash : bytes32)
                             (encryptedData : bytes)
                             (prf : Groth16Proof) (input : PublicInputs)
  : Tx bool :=
  whenNotPaused;;
  st ← storage;
  require (isActive (devices_at st deviceId)) NotActive;;
  require (input0 input =? deviceId) BindingMismatch;;
  let isValid := verifyProof prf input in
  require isValid ProofRejected;;
  sstore (push_transaction deviceId
            {| tx_deviceId := deviceId;
               tx_dataHash := dataHash;
               tx_encryptedData := encryptedData;
               tx_timestamp := block_timestamp env |});;
  emit (TransactionRecorded deviceId dataHash (block_timestamp env));;
  mret true.

(** ** Entry points inherited from [Ownable] *)

(** [Ownable._transferOwnership] *)
Definition _transferOwnership (newOwner : address) : Tx unit :=
  st ← storage;
  let oldOwner := _owner st in
  sstore (set_owner newOwner);;
  emit (OwnershipTransferred oldOwner newOwner).

Definition transferOwnership (env : Env) (newOwner : address) : Tx unit :=
  onlyOwner env;;
  require (negb (newOwner =? 0)) OwnableInvalidOwner;;
  _transferOwnership newOwner.

Definition renounceOwnership (env : Env) : Tx unit :=
  onlyOwner env;;
  _transferOwnership 0.

(** ** The external interface of the deployed contract

    Every function a transaction can call: the three mutating functions and
    three views of [DeviceRegistry], the public getters, and what [Ownable]
    and [Pausable] expose.  [Pausable] has internal [_pause]/[_unpause]
    only, and [DeviceRegistry] wraps neither. *)

Inductive Call :=
| CallRegisterDevice (deviceId pubKeyHash : bytes32) (helperData : bytes)
| CallAuthenticate (deviceId : bytes32) (prf : Groth16Proof)
                   (input : PublicInputs)
| CallRecordTransaction (deviceId dataHash : bytes32) (encryptedData : bytes)
                        (prf : Groth16Proof) (input : PublicInputs)
| CallGetTransactionCount (deviceId : bytes32)
| CallIsDeviceRegistered (deviceId : bytes32)
| CallIsDeviceActive (deviceId : bytes32)
| CallTotalDevices
| CallVerifier
| CallOwner
| CallPaused
| CallTransferOwnership (newOwner : address)
| CallRenounceOwnership.

Inductive Value :=
| VBool (v : bool)
| VUint (v : uint256)
| VAddress (v : address)
| VUnit.

Definition view (f : State -> Value) : Tx Value :=
  st ← storage; mret (f st).

Definition exec (env : Env) (call : Call) : Tx Value :=
  match call with
  | CallRegisterDevice deviceId pubKeyHash helperData =>
      VBool <$> registerDevice env deviceId pubKeyHash helperData
  | CallAuthenticate deviceId prf input =>
      VBool <$> authenticate env deviceId prf input
  | CallRecordTransaction deviceId dataHash encryptedData prf input =>
      VBool <$> recordTransaction env deviceId dataHash encryptedData prf input
  | CallGetTransactionCount deviceId =>
      view (fun st => VUint (getTransactionCount st deviceId))
  | CallIsDeviceRegistered deviceId =>
      view (fun st => VBool (isDeviceRegistered st deviceId))
  | CallIsDeviceActive deviceId =>
      view (fun st => VBool (isDeviceActive st deviceId))
  | CallTotalDevices => view (fun st => VUint (totalDevices st))
  | CallVerifier => view (fun st => VAddress (verifier st))
  | CallOwner => view (fun st => VAddress (_owner st))
  | CallPaused => view (fun st => VBool (_paused st))
  | CallTransferOwnership newOwner =>
      transferOwnership env newOwner;; mret VUnit
  | CallRenounceOwnership =>
      renounceOwnership env;; mret VUnit
  end.

(** ** Transactions

    A reverted call leaves the storage as it was and logs nothing. *)

Definition post_state {A} (r : Result A) (st : State) : State :=
  match r with
  | Ok _ st' _ => st'
  | Revert _ => st
  end.

Definition emitted {A} (r : Result A) : list Event :=
  match r with
  | Ok _ _ log => log
  | Revert _ => []
  end.

Definition transact (env : Env) (call : Call) (st : State) : State :=
  post_state (exec env call st) st.

(** What the execution environment guarantees: the sender is an address,
    the block timestamp is a positive [uint256] (every block after genesis
    has a timestamp above its parent's), and the arguments are ABI-decoded
    words. *)

Definition valid_env (env : Env) : Prop :=
  0 <= msg_sender env < 2 ^ 160 /\ 0 < block_timestamp env <= MAX_UINT256.

Definition valid_inputs (input : PublicInputs) : Prop :=
  is_uint256 (input0 input) /\ is_uint256 (input1 input) /\
  is_uint256 (input2 input).

Definition valid_call (call : Call) : Prop :=
  match call with
  | CallRegisterDevice deviceId pubKeyHash _ =>
      is_uint256 deviceId /\ is_uint256 pubKeyHash
  | CallAuthenticate deviceId _ input =>
      is_uint256 deviceId /\ valid_inputs input
  | CallRecordTransaction deviceId dataHash _ _ input =>
      is_uint256 deviceId /\ is_uint256 dataHash /\ valid_inputs input
  | CallGetTransactionCount deviceId
  | CallIsDeviceRegistered deviceId
  | CallIsDeviceActive deviceId => is_uint256 deviceId
  | CallTransferOwnership newOwner => 0 <= newOwner < 2 ^ 160
  | _ => True
  end.

(** [steps st st']: [st'] is the storage after some sequence of
    transactions on [st]. *)
Inductive steps : State -> State -> Prop :=
| steps_refl st : steps st st
| steps_call st st' env call :
    steps st st' -> valid_env env -> valid_call call ->
    steps st (transact env call st').

(** The storage states a deployed registry can be in. *)
Definition reachable (st : State) : Prop :=
  exists initialOwner verifierAddress st0,
    constructor initialOwner verifierAddress = Some st0 /\ steps st0 st.

(** The records the two mutating functions write. *)

Definition new_device (env : Env) (deviceId pubKeyHash : bytes32)
                      (helperData : bytes) : Device :=
  {| deviceId := deviceId;
     pubKeyHash := pubKeyHash;
     helperData := helperData;
     registeredAt := block_timestamp env;
     isActive := true;
     owner := msg_sender env |}.

Definition new_transaction (env : Env) (deviceId dataHash : bytes32)
                           (encryptedData : bytes) : EncryptedTransaction :=
  {| tx_deviceId := deviceId;
     tx_dataHash := dataHash;
     tx_encryptedData := encryptedData;
     tx_timestamp := block_timestamp env |}.

(** The post-state and the log of a call, case by case. *)
Inductive effect (env : Env) (st : State) : Call -> State -> list Event -> Prop :=
| effect_none call : effect env st call st []
| effect_register id pk hd :
    registeredAt (devices_at st id) = 0 -> id <> 0 ->
    totalDevices st < MAX_UINT256 -> _paused st = false ->
    effect env st (CallRegisterDevice id pk hd)
      (set_totalDevices (totalDevices st + 1)
         (set_device id (new_device env id pk hd) st))
      [DeviceRegistered id (block_timestamp env)]
| effect_authenticate id prf input :
    effect env st (CallAuthenticate id prf input) st
      [AuthenticationAttempt id (verifyProof prf input)]
| effect_record id dh data prf input :
    isActive (devices_at st id) = true ->
    effect env st (CallRecordTransaction id dh data prf input)
      (push_transaction id (new_transaction env id dh data) st)
      [TransactionRecorded id dh (block_timestamp env)]
| effect_owner call o :
    effect env st call (set_owner o st) [OwnershipTransferred (_owner st) o].

(** The dispatcher's wrapping of a [bool] result. *)
Definition lift_bool (r : Result bool) : Result Value :=
  match r with
  | Ok v st log => Ok (VBool v) st log
  | Revert reason => Revert reason
  end.

(** The storage invariant of the reachable states. *)
Definition invariant (st : State) : Prop :=
  _paused st = false /\
  (forall id d, devices st !! id = Some d ->
     0 < registeredAt d /\ isActive d = true /\ 1 <= id <= MAX_UINT256) /\
  totalDevices st = Z.of_nat (size (devices st)).

End Contract.

(** ** A deployment to evaluate on

    The device of the end-to-end scenario of the test flow, registered on a
    fresh registry. *)

Definition accept_all : Groth16Proof -> PublicInputs -> bool :=
  fun _ _ => true.

Definition reject_all : Groth16Proof -> PublicInputs -> bool :=
  fun _ _ => false.

Definition deployed : State :=
  {| devices := ∅; transactions := ∅; totalDevices := 0;
     verifier := 2; _owner := 1; _paused := false |}.

Definition device1 : bytes32 :=
  167187242023213709790752988836059498562277881928506182497546456141543281514.

Definition challenge1 : uint256 :=
  53252479149983696040782982834539845211935550546231631847320157353769477342.

Definition env1 : Env := {| msg_sender := 1; block_timestamp := 1700000000 |}.

Definition env2 : Env := {| msg_sender := 3; block_timestamp := 1700000012 |}.

(** A block timestamp no chain assigns after genesis. *)
Definition env_genesis : Env := {| msg_sender := 1; block_timestamp := 0 |}.

Definition register1 : Call := CallRegisterDevice device1 99 [].

Definition registered1
    (verifyProof : Groth16Proof -> PublicInputs -> bool) : State :=
  transact verifyProof env1 register1 deployed.

Definition proof1 : Groth16Proof :=
  {| a := (1, 2); b := ((3, 4), (5, 6)); c := (7, 8) |}.

Definition inputs1 : PublicInputs :=
  {| input0 := device1; input1 := challenge1; input2 := 42 |}.

(** Public inputs bound to another identifier. *)
Definition inputs_other : PublicInputs :=
  {| input0 := 5; input1 := challenge1; input2 := 42 |}.

(** [registered1] after a transaction recorded for [device1]. *)
Definition record1 : Call := CallRecordTransaction device1 7 [] proof1 inputs1.

Definition recorded1
    (verifyProof : Groth16Proof -> PublicInputs -> bool) : State :=
  transact verifyProof env2 record1 (registered1 verifyProof).

(** ** Kinds of calls and of reverts *)

(** The calls that are declared [view], and [authenticate]. *)
Definition read_only (call : Call) : bool :=
  match call with
  | CallRegisterDevice _ _ _ | CallRecordTransaction _ _ _ _ _
  | CallTransferOwnership _ | CallRenounceOwnership => false
  | _ => true
  end.

(** The reasons the functions of the registry and of [Ownable] revert
    with, the pause gate and the arithmetic panic left out. *)
Definition require_reasons : list string :=
  [AlreadyRegistered; InvalidDeviceId; InvalidPubKeyHash; NotActive;
   BindingMismatch; ProofRejected;
   OwnableUnauthorizedAccount; OwnableInvalidOwner].

(** test/test-flow.js and test/experiments.js: "Register device if not
    already registered", a view call followed by a transaction. *)
Definition register_if_needed (env : Env) (deviceId pubKeyHash : bytes32)
                              (helperData : bytes) (st : State)
  : Result bool :=
  let isRegistered := isDeviceRegistered st deviceId in
  if negb isRegistered
  then registerDevice env deviceId pubKeyHash helperData st
  else Ok true st [].

End Registry.

(** * The commitment: PUF simulator and proof circuit *)
Module Commitment.

(** The order of the BN254 scalar field. *)
Definition maxField : Z :=
  21888242871839275222246405745257275088548364400416034343698204186575808495617.

(** [F.e(x)]: the canonical representative of a field element. *)
Definition Fe (x : Z) : Z := x mod maxField.

Section PUF.

(** [crypto.createHash('sha256').update(buffer).digest('hex')], read as a
    hexadecimal number. *)
Variable sha256 : string -> N.

(** The Poseidon permutation-based hash over the field, on canonical
    inputs: the one function behind [circomlibjs.buildPoseidon()] and
    circomlib's [Poseidon(nInputs)] template. *)
Variable Poseidon : list Z -> Z.

(** ** utils/PUFSimulator.js *)

(** [this.poseidon([...])] after [initialize()], then [F.toString]. *)
Definition buildPoseidon (inputs : list Z) : Z :=
  Fe (Poseidon (Fe <$> inputs)).

Record PUFSimulator := mkPUFSimulator {
  seed : string;
  responseMap : gmap string Z;
  poseidon : option (list Z -> Z)
}.

Definition new_PUFSimulator (seed : string) : PUFSimulator :=
  {| seed := seed; responseMap := ∅; poseidon := None |}.

Definition initialize (this : PUFSimulator) : PUFSimulator :=
  {| seed := seed this; responseMap := responseMap this;
     poseidon := Some buildPoseidon |}.

(** [randomBytes] is the number [crypto.randomBytes(31)] denotes. *)
Definition generateChallenge (randomBytes : Z) : Z :=
  let challenge := randomBytes in
  Z.rem challenge maxField.

Definition response_key (deviceId challenge : Z) : string :=
  pretty deviceId +:+ "-" +:+ pretty challenge.

Definition generateResponse (this : PUFSimulator) (deviceId challenge : Z)
  : Z * PUFSimulator :=
  let key := response_key deviceId challenge in
  match responseMap this !! key with
  | Some response => (response, this)
  | None =>
      let buffer := seed this +:+ key in
      let response := Z.rem (Z.of_N (sha256 buffer)) maxField in
      (response,
       {| seed := seed this;
          responseMap := <[key := response]> (responseMap this);
          poseidon := poseidon this |})
  end.

(** [None]: throws ['PUFSimulator not initialized. Call initialize() first.'] *)
Definition generateExpectedHash (this : PUFSimulator) (deviceId challenge : Z)
  : option (Z * PUFSimulator) :=
  match poseidon this with
  | None => None
  | Some poseidon =>
      let '(response, this) := generateResponse this deviceId challenge in
      let hash := poseidon [response; challenge] in
      Some (hash, this)
  end.

Record CircuitInput := mkCircuitInput {
  in_deviceId : Z;
  in_challenge : Z;
  in_response : Z;
  in_expectedHash : Z
}.

Definition generateCircuitInput (this : PUFSimulator) (deviceId : Z)
                                (randomBytes : Z)
  : option (CircuitInput * PUFSimulator) :=
  let challenge := generateChallenge randomBytes in
  let '(response, this) := generateResponse this deviceId challenge in
  '(expectedHash, this) ← generateExpectedHash this deviceId challenge;
  Some ({| in_deviceId := deviceId;
           in_challenge := challenge;
           in_response := response;
           in_expectedHash := expectedHash |}, this).

(** [randomBytes] is the number [crypto.randomBytes(31)] denotes. *)
Definition generateDeviceId (randomBytes : Z) : Z := randomBytes.

(** Every memoised response is the one the keyed hash gives for its key. *)
Definition memo_consistent (this : PUFSimulator) : Prop :=
  forall key response,
    responseMap this !! key = Some response ->
    response = Z.rem (Z.of_N (sha256 (seed this +:+ key))) maxField.

(** ** circuits/templates/DeviceAuth.circom *)

(** circomlib's [Num2Bits(n)]: the input has an [n]-bit decomposition. *)
Definition Num2Bits (n : Z) (input : Z) : bool :=
  (0 <=? input) && (input <? 2 ^ n).

(** The value of the intermediate signal [computedHash]. *)
Definition computedHash (response challenge : Z) : Z :=
  let hasher_inputs := [Fe response; Fe challenge] in
  Fe (Poseidon hasher_inputs).

(** The constraints of [DeviceAuth()] on the signals the inputs denote. *)
Definition DeviceAuth (deviceId challenge expectedHash response : Z) : bool :=
  Num2Bits 254 (Fe deviceId) &&
  Num2Bits 254 (Fe challenge) &&
  Num2Bits 254 (Fe response) &&
  (computedHash response challenge =? Fe expectedHash).

(** [component main { public [deviceId, challenge, expectedHash] }] *)
Definition publicSignals (input : CircuitInput) : list Z :=
  [Fe (in_deviceId input); Fe (in_challenge input);
   Fe (in_expectedHash input)].

(** ** The proof gate *)

(** Modelled from the spec: the prover run by [snarkjs groth16 prove] and
    the generated Groth16 verifier are not among the sources.  The
    specification has a proof as an opaque artifact bound to exactly one
    statement's public inputs; [issue] fails when the statement is
    unsatisfied, and [verify] answers [false] on any other statement and
    is malformed on a public-input vector that is not a triple. *)
Record Proof := mkProof { bound_inputs : list Z }.

(** scripts/generate-proof.js: the witness calculation fails on unsatisfied
    constraints, and the failure is returned as [success: false]. *)
Definition generateProof (inputs : CircuitInput) : option (Proof * list Z) :=
  if DeviceAuth (in_deviceId inputs) (in_challenge inputs)
                (in_expectedHash inputs) (in_response inputs)
  then Some ({| bound_inputs := publicSignals inputs |}, publicSignals inputs)
  else None.

(** Modelled from the spec: [verify(proof, publicInputs)], with [None] for
    the malformed call. *)
Definition verify (proof : Proof) (publicInputs : list Z) : option bool :=
  match publicInputs with
  | [_; _; _] => Some (bool_decide (bound_inputs proof = publicInputs))
  | _ => None
  end.

(** ** The simulator over time *)

(** [evolves this this']: [this'] is the simulator after some calls of
    [initialize] and [generateResponse] on [this]. *)
Inductive evolves (this : PUFSimulator) : PUFSimulator -> Prop :=
| evolves_refl : evolves this this
| evolves_initialize this' :
    evolves this this' -> evolves this (initialize this')
| evolves_generateResponse this' deviceId challenge :
    evolves this this' ->
    evolves this (generateResponse this' deviceId challenge).2.

(** The keyed hash behind a response, reduced into the field. *)
Definition keyed_response (seed : string) (deviceId challenge : Z) : Z :=
  Z.rem (Z.of_N (sha256 (seed +:+ response_key deviceId challenge))) maxField.

End PUF.

(** ** Functions to evaluate on

    Stand-ins for the two hash functions; the second one tells its two
    inputs apart. *)

Definition toy_sha256 (buffer : string) : N := N.of_nat (String.length buffer).

Definition toy_Poseidon (inputs : list Z) : Z :=
  fold_left (fun acc x => 3 * acc + x + 1) inputs 0.

(** No character of [s] is a dash. *)
Fixpoint dashless (s : string) : Prop :=
  match s with
  | EmptyString => True
  | String c s' => c <> "-"%char /\ dashless s'
  end.

End Commitment.

(** * The proof cache of scripts/run_experiments.js *)
Module ProofCache.

Section Cache.

(** The proof and public-signal objects the cache stores. *)
Context {Proof PublicSignals : Type}.

Record CacheEntry := mkCacheEntry {
  proof : Proof;
  publicSignals : PublicSignals;
  timestamp : Z
}.

Record ProofCache := mkProofCache {
  cache : gmap string CacheEntry;
  timeout : Z
}.

(** [constructor(timeoutMs = 300000)] *)
Definition default_timeoutMs : Z := 300000.

Definition constructor (timeoutMs : Z) : ProofCache :=
  {| cache := ∅; timeout := timeoutMs |}.

Definition getKey (deviceId challenge : string) : string :=
  deviceId +:+ "-" +:+ challenge.

(** [now] is the value of [Date.now()] at the call. *)
Definition set (now : Z) (this : ProofCache) (deviceId challenge : string)
               (proof : Proof) (publicSignals : PublicSignals) : ProofCache :=
  let key := getKey deviceId challenge in
  {| cache := <[key := {| proof := proof;
                          publicSignals := publicSignals;
                          timestamp := now |}]> (cache this);
     timeout := timeout this |}.

Definition get (now : Z) (this : ProofCache) (deviceId challenge : string)
  : option CacheEntry * ProofCache :=
  let key := getKey deviceId challenge in
  match cache this !! key with
  | None => (None, this)
  | Some entry =>
      if now - timestamp entry >? timeout this
      then (None, {| cache := delete key (cache this);
                     timeout := timeout this |})
      else (Some entry, this)
  end.

End Cache.

Arguments CacheEntry : clear implicits.
Arguments ProofCache : clear implicits.

End ProofCache.

(** * The noise injector of test/experiments.js *)
Module Noise.

(** ** JavaScript numbers: IEEE 754 binary64 *)

Definition prec : Z := 53.
Definition emax : Z := 1024.

(** The number an array length denotes. *)
Definition Number_of_nat (n : nat) : spec_float :=
  binary_normalize prec emax (Z.of_nat n) 0 false.

(** [x * y] *)
Definition mul (x y : spec_float) : spec_float := SFmul prec emax x y.

(** The integer part, rounded down, of the finite number [(-1)^s m 2^e]. *)
Definition floorZ (s : bool) (m : positive) (e : Z) : Z :=
  let v := if s then Z.neg m else Z.pos m in
  if 0 <=? e then v * 2 ^ e else v / 2 ^ (- e).

(** [Math.floor(x)] *)
Definition Math_floor (x : spec_float) : spec_float :=
  match x with
  | S754_finite s m e => binary_normalize prec emax (floorZ s m e) 0 s
  | _ => x
  end.

(** The integer a number is, when it is one. *)
Definition integer_value (x : spec_float) : option Z :=
  match x with
  | S754_zero _ => Some 0
  | S754_finite s m e =>
      if (0 <=? e) || (Z.pos m mod 2 ^ (- e) =? 0)
      then Some (floorZ s m e) else None
  | _ => None
  end.

(** The least integer not below the finite number [(-1)^s m 2^e]. *)
Definition ceilZ (s : bool) (m : positive) (e : Z) : Z :=
  - floorZ (negb s) m e.

(** How often the body of [for (let i = 0; i < n; i++)] runs: not at all
    when [0 < n] fails, which it does on a NaN; otherwise once for every
    integer from [0] up to [n].  [None] is the loop that does not end: [i]
    is a number too, and [i++] stops changing it at [2^53]. *)
Definition loop_iterations (n : spec_float) : option nat :=
  match n with
  | S754_infinity false => None
  | S754_finite false m e =>
      let k := ceilZ false m e in
      if k <=? 2 ^ 53 then Some (Z.to_nat k) else None
  | _ => Some 0%nat
  end.

(** ** BigInt to and from binary digits *)

Fixpoint digits_of_positive (p : positive) : list ascii :=
  match p with
  | xH => ["1"%char]
  | xO q => digits_of_positive q ++ ["0"%char]
  | xI q => digits_of_positive q ++ ["1"%char]
  end.

(** [x.toString(2).split('')] *)
Definition toString2 (x : Z) : list ascii :=
  match x with
  | Z0 => ["0"%char]
  | Zpos p => digits_of_positive p
  | Zneg p => "-"%char :: digits_of_positive p
  end.

Definition binary_digit (c : ascii) : option Z :=
  if Ascii.eqb c "0" then Some 0
  else if Ascii.eqb c "1" then Some 1
  else None.

(** [BigInt('0b' + s)]; [None] is the [SyntaxError] on a string that is not
    a non-empty run of binary digits. *)
Definition BigInt_0b (s : list ascii) : option Z :=
  match s with
  | [] => None
  | _ =>
      fold_left (fun acc c =>
                   match acc, binary_digit c with
                   | Some v, Some d => Some (2 * v + d)
                   | _, _ => None
                   end) s (Some 0)
  end.

(** ** Arrays: a list of elements, [None] being a hole *)

Definition max_array_index : Z := 2 ^ 32 - 1.

(** [a[key]] for a number [key]; [None] is [undefined]. *)
Definition array_get (a : list (option ascii)) (key : spec_float)
  : option ascii :=
  match integer_value key with
  | Some i =>
      if (0 <=? i) && (i <? max_array_index)
      then mjoin (a !! Z.to_nat i) else None
  | None => None
  end.

(** [a[key] = v]: an index inside the array overwrites, one beyond it
    extends the array over holes, and any other key is a plain property,
    which leaves the elements as they are. *)
Definition array_set (a : list (option ascii)) (key : spec_float) (v : ascii)
  : list (option ascii) :=
  match integer_value key with
  | Some i =>
      if (0 <=? i) && (i <? max_array_index)
      then if i <? Z.of_nat (length a)
           then <[Z.to_nat i := Some v]> a
           else a ++ replicate (Z.to_nat i - length a) None ++ [Some v]
      else a
  | None => a
  end.

(** [a.join('')]: holes print as the empty string. *)
Definition join (a : list (option ascii)) : list ascii := omap id a.

(** ** addNoiseToResponse *)

(** One run of the loop body; [u] is what [Math.random()] returns. *)
Definition flip_step (u : spec_float) (responseBits : list (option ascii))
  : list (option ascii) :=
  let index := Math_floor (mul u (Number_of_nat (length responseBits))) in
  array_set responseBits index
    (if bool_decide (array_get responseBits index = Some "0"%char)
     then "1"%char else "0"%char).

(** [n] runs of the body, the first of them on the [i]-th call of
    [Math.random()]. *)
Fixpoint flip_loop (random : nat -> spec_float) (n i : nat)
                   (responseBits : list (option ascii))
  : list (option ascii) :=
  match n with
  | O => responseBits
  | S n' => flip_loop random n' (S i) (flip_step (random i) responseBits)
  end.

Inductive Outcome :=
| Returns (v : Z)
| Throws
| Diverges.

Definition numBitsToFlip (responseBigInt : Z) (noiseLevel : spec_float)
  : spec_float :=
  let responseBits := toString2 responseBigInt in
  Math_floor (mul (Number_of_nat (length responseBits)) noiseLevel).

Definition addNoiseToResponse (random : nat -> spec_float)
                              (responseBigInt : Z) (noiseLevel : spec_float)
  : Outcome :=
  let responseBits := Some <$> toString2 responseBigInt in
  let numBitsToFlip :=
    Math_floor (mul (Number_of_nat (length responseBits)) noiseLevel) in
  match loop_iterations numBitsToFlip with
  | None => Diverges
  | Some n =>
      let responseBits := flip_loop random n 0 responseBits in
      match BigInt_0b (join responseBits) with
      | Some v => Returns v
      | None => Throws
      end
  end.

(** ** What a flip means on the number *)

(** The number of binary digits of [r]. *)
Definition bitLength (r : Z) : nat := length (toString2 r).

(** The index [Math.floor(u * len)] picks, when it is an integer. *)
Definition drawn_index (u : spec_float) (len : nat) : option Z :=
  integer_value (Math_floor (mul u (Number_of_nat len))).

(** Flipping digit [index] (counted from the most significant one) of a
    [len]-digit number. *)
Definition flip_bit (len : nat) (r : Z) (index : Z) : Z :=
  Z.lxor r (2 ^ (Z.of_nat len - 1 - index)).

(** The indices of the first [n] draws. *)
Definition drawn_indices (random : nat -> spec_float) (n len : nat) : list Z :=
  (fun i => default 0 (drawn_index (random i) len)) <$> seq 0 n.

(** The draws stay inside the digits, as [Math.random() < 1] has it. *)
Definition draws_in_range (random : nat -> spec_float) (n len : nat) : Prop :=
  forall i, (i < n)%nat ->
    exists k, drawn_index (random i) len = Some k /\ 0 <= k < Z.of_nat len.

(** The body's new character for an element that reads [c]. *)
Definition flipped (c : option ascii) : ascii :=
  if bool_decide (c = Some "0"%char) then "1"%char else "0"%char.

(** The digits after a flip inside them. *)
Definition flip_digit (ds : list ascii) (index : Z) : list ascii :=
  <[Z.to_nat index := flipped (ds !! Z.to_nat index)]> ds.

Definition is_binary (c : ascii) : Prop := c = "0"%char \/ c = "1"%char.

(** The number a run of binary digits denotes. *)
Definition digits_value (ds : list ascii) : Z :=
  fold_left (fun v c => 2 * v + default 0 (binary_digit c)) ds 0.

(** ** Numbers to evaluate on: 0.5, 0.1, 0.01 and 0.05 as binary64 *)

Definition number_0_5 : spec_float := S754_finite false 4503599627370496 (-53).
Definition number_0_1 : spec_float := S754_finite false 7205759403792794 (-56).
Definition number_0_01 : spec_float := S754_finite false 5764607523034235 (-59).
Definition number_0_05 : spec_float := S754_finite false 7205759403792794 (-57).

(** The largest number below 1, the most [Math.random()] can return. *)
Definition number_below_1 : spec_float :=
  S754_finite false 9007199254740991 (-53).

(** The draw [u] lands inside an array of length [len]. *)
Definition draw_in_range (u : spec_float) (len : nat) : bool :=
  match drawn_index u len with
  | Some k => (0 <=? k) && (k <? Z.of_nat len)
  | None => false
  end.

(** [Math.floor(len * noiseLevel)] is the integer [len / d]. *)
Definition floor_is_quotient (noiseLevel : spec_float) (d : Z) (len : nat)
  : bool :=
  bool_decide (integer_value (Math_floor (mul (Number_of_nat len) noiseLevel))
               = Some (Z.of_nat len / d)).

(** ** Signs of numbers *)

(** A number that is a NaN or carries the sign [s]. *)
Definition signed (s : bool) (x : spec_float) : Prop :=
  match x with
  | S754_nan => True
  | S754_zero s' | S754_infinity s' | S754_finite s' _ _ => s' = s
  end.

(** The numbers [n] on which [0 < n] fails: NaN, the zeros and the
    negative ones. *)
Definition no_flip_level (noiseLevel : spec_float) : Prop :=
  match noiseLevel with
  | S754_infinity false | S754_finite false _ _ => False
  | _ => True
  end.

(** ** What the arithmetic is to give: exact rationals

    The definitions of this part follow the specification's words,
    [floor(bitLength * noiseLevel)], over the rationals, with the product
    rounded to a binary64 number as the language defines it.  The model of
    the code above uses none of them. *)

(** The rational a finite number is; the zeros are [0], and so is, for
    want of a value, what is not finite. *)
Definition Number_value (x : spec_float) : Q :=
  match x with
  | S754_finite s m e =>
      (inject_Z (if s then Z.neg m else Z.pos m) * 2 ^ e)%Q
  | _ => 0%Q
  end.



(** The integer part of the binary logarithm of a positive rational. *)
Definition Qlog2 (q : Q) : Z :=
  let k := Z.log2 (Qnum q) - Z.log2 (Z.pos (Qden q)) in
  if Qle_bool (2 ^ k) q then k else k - 1.

(** The integer nearest to a rational, the even one of two. *)
Definition round_half_even (q : Q) : Z :=
  let f := Qfloor q in
  match (q - inject_Z f ?= 1 # 2)%Q with
  | Lt => f
  | Eq => if Z.even f then f else f + 1
  | Gt => f + 1
  end.

(** The binary64 number nearest to a rational [0 <= q < 2^1024]: 53
    significant bits, exponents from [-1074], ties to the even
    significand. *)
Definition round_binary64 (q : Q) : Q :=
  if Qle_bool q 0 then 0%Q
  else let e := Z.max (Qlog2 q - 52) (-1074) in
       (inject_Z (round_half_even (q / 2 ^ e)) * 2 ^ e)%Q.

(** [Math.floor(x * y)] of two numbers, from their values. *)
Definition floor_of_product (x y : Q) : Z := Qfloor (round_binary64 (x * y)).

(** The number of flips the specification asks for on [len] digits. *)
Definition spec_numBitsToFlip (len : nat) (noiseLevel : Q) : Z :=
  floor_of_product (inject_Z (Z.of_nat len)) noiseLevel.


(** ** The library's rounding, on integers

    [binary_round_aux] shifts the significand right bit by bit and keeps a
    round and a sticky bit; the same in one division. *)






(** The specification's count on [len] digits is the integer [len / d]. *)
Definition spec_floor_is_quotient (noiseLevel : spec_float) (d : Z)
                                  (len : nat) : bool :=
  spec_numBitsToFlip len (Number_value noiseLevel) =? Z.of_nat len / d.

(** 0.3 as binary64: a little below three tenths. *)
Definition number_0_3 : spec_float :=
  S754_finite false 5404319552844595 (-54).

(** ** Draws to evaluate on: 0.5, then 0.25 for ever *)



End Noise.

(** * Identifiers as hexadecimal strings *)
Module Hex.

(** [x.toString(16)] on a BigInt. *)
Definition toString16 (x : Z) : string :=
  match x with
  | Z0 => "0"
  | Zpos p => HexString.Raw.of_pos p ""
  | Zneg p => String "-" (HexString.Raw.of_pos p "")
  end.

Fixpoint zeros (n : nat) : string :=
  match n with
  | O => ""
  | S n' => String "0" (zeros n')
  end.

(** [s.padStart(targetLength, '0')] *)
Definition padStart (targetLength : nat) (s : string) : string :=
  zeros (targetLength - String.length s) +:+ s.

(** utils/AuthenticationService.js, [convertToBytes32]; [value] is the
    BigInt that [BigInt(value)] gives. *)
Definition convertToBytes32 (value : Z) : string :=
  let hexString := toString16 value in
  let hexString := padStart 64 hexString in
  "0x" +:+ hexString.

(** scripts/run_experiments.js, [formatDeviceId] *)
Definition formatDeviceId (deviceId : string) : string :=
  let hexString :=
    match deviceId with
    | String "0" (String "x" rest) => rest
    | _ => deviceId
    end in
  let hexString := padStart 64 hexString in
  "0x" +:+ hexString.

(** The number a run of hexadecimal digits denotes after [acc]; [None] on
    any other character. *)
Fixpoint hex_digits_value (s : string) (acc : N) : option N :=
  match s with
  | EmptyString => Some acc
  | String c s' =>
      match HexString.ascii_to_digit c with
      | Some d => hex_digits_value s' (d + 16 * acc)%N
      | None => None
      end
  end.

(** The number a [0x] literal denotes, which is what [BigInt(s)] returns
    on it and what the ABI encodes it to; [None] when [s] is no such
    literal. *)
Definition hex_value (s : string) : option Z :=
  match s with
  | String "0" (String "x" EmptyString) => None
  | String "0" (String "x" digits) => Z.of_N <$> hex_digits_value digits 0
  | _ => None
  end.

End Hex.

(** * The contract call of utils/AuthenticationService.js *)
Module Service.

Import Registry.

(** [authenticate]: the arguments handed to [registry.methods.authenticate]:
    the identifier as a [bytes32] literal of 32 bytes, the proof points and
    the public signals as [uint256[3]].  [None] when the ABI encoder
    rejects them. *)
Definition authenticate_call (deviceIdBigInt : Z) (proofData : Groth16Proof)
                             (publicSignals : list Z) : option Call :=
  let deviceIdBytes32 := Hex.convertToBytes32 deviceIdBigInt in
  match Hex.hex_value deviceIdBytes32, publicSignals with
  | Some deviceId, [s0; s1; s2] =>
      if (String.length deviceIdBytes32 =? 66)%nat
      then Some (CallAuthenticate deviceId proofData
                   {| input0 := s0; input1 := s1; input2 := s2 |})
      else None
  | _, _ => None
  end.

(** An identifier of 32 bytes above the field order, registered on a fresh
    registry. *)
Definition device_large : bytes32 := 2 ^ 255.

Definition registered_large
    (verifyProof : Groth16Proof -> PublicInputs -> bool) : State :=
  transact verifyProof env1 (CallRegisterDevice device_large 99 []) deployed.

End Service.

(** * Properties of the device registry *)
Module RegistryFacts.

Import Registry.

#[local] Ltac tx_unfold :=
  unfold whenNotPaused, onlyOwner, increment_totalDevices, view;
  unfold fmap, Tx_fmap; unfold mbind, Tx_bind, mret, Tx_ret;
  unfold require, storage, sstore, emit.

(** A finite map whose keys lie in [1..n] has at most [n] entries. *)
Lemma size_keys_bounded {V} (n : nat) (m : gmap Z V) :
  (forall k, is_Some (m !! k) -> 1 <= k <= Z.of_nat n) ->
  (size m <= n)%nat.
Proof.
  revert m. induction n as [|n IH]; intros m Hkeys.
  - assert (m = ∅) as ->.
    { apply map_empty. intros k. destruct (m !! k) eqn:Hk; [|done].
      specialize (Hkeys k (mk_is_Some _ _ Hk)). lia. }
    by rewrite map_size_empty.
  - set (top := Z.of_nat (S n)).
    assert (size (delete top m) <= n)%nat as Hdel.
    { apply IH. intros k Hk. apply lookup_delete_is_Some in Hk as [Hne Hk].
      specialize (Hkeys k Hk). unfold top in Hne. lia. }
    rewrite map_size_delete in Hdel.
    destruct (m !! top); simpl in Hdel; lia.
Qed.

Section Facts.

Variable verifyProof : Groth16Proof -> PublicInputs -> bool.

#[local] Abbreviation authenticate := (Registry.authenticate verifyProof).
#[local] Abbreviation recordTransaction := (Registry.recordTransaction verifyProof).
#[local] Abbreviation exec := (Registry.exec verifyProof).
#[local] Abbreviation transact := (Registry.transact verifyProof).
#[local] Abbreviation steps := (Registry.steps verifyProof).
#[local] Abbreviation reachable := (Registry.reachable verifyProof).

(** ** The functions as guarded equations *)

Lemma registerDevice_eq env id pk hd st :
  registerDevice env id pk hd st =
  if _paused st then Revert EnforcedPause
  else if negb (registeredAt (devices_at st id) =? 0)
       then Revert AlreadyRegistered
  else if id =? 0 then Revert InvalidDeviceId
  else if pk =? 0 then Revert InvalidPubKeyHash
  else if negb (totalDevices st <? MAX_UINT256) then Revert PanicOverflow
  else Ok true
          (set_totalDevices (totalDevices st + 1)
             (set_device id (new_device env id pk hd) st))
          [DeviceRegistered id (block_timestamp env)].
Proof.
  unfold registerDevice; tx_unfold; cbn.
  destruct (_paused st); cbn; [reflexivity|].
  destruct (registeredAt (devices_at st id) =? 0); cbn; [|reflexivity].
  destruct (id =? 0); cbn; [reflexivity|].
  destruct (pk =? 0); cbn; [reflexivity|].
  destruct (totalDevices st <? MAX_UINT256); reflexivity.
Qed.

Lemma authenticate_eq env id prf input st :
  authenticate env id prf input st =
  if _paused st then Revert EnforcedPause
  else if negb (isActive (devices_at st id)) then Revert NotActive
  else if negb (input0 input =? id) then Revert BindingMismatch
  else Ok (verifyProof prf input) st
          [AuthenticationAttempt id (verifyProof prf input)].
Proof.
  unfold Registry.authenticate; tx_unfold; cbn.
  destruct (_paused st); cbn; [reflexivity|].
  destruct (isActive (devices_at st id)); cbn; [|reflexivity].
  destruct (input0 input =? id); reflexivity.
Qed.

Lemma recordTransaction_eq env id dh data prf input st :
  recordTransaction env id dh data prf input st =
  if _paused st then Revert EnforcedPause
  else if negb (isActive (devices_at st id)) then Revert NotActive
  else if negb (input0 input =? id) then Revert BindingMismatch
  else if negb (verifyProof prf input) then Revert ProofRejected
  else Ok true (push_transaction id (new_transaction env id dh data) st)
          [TransactionRecorded id dh (block_timestamp env)].
Proof.
  unfold Registry.recordTransaction; tx_unfold; cbn.
  destruct (_paused st); cbn; [reflexivity|].
  destruct (isActive (devices_at st id)); cbn; [|reflexivity].
  destruct (input0 input =? id); cbn; [|reflexivity].
  destruct (verifyProof prf input); reflexivity.
Qed.

Lemma transferOwnership_eq env newOwner st :
  transferOwnership env newOwner st =
  if negb (msg_sender env =? _owner st)
  then Revert OwnableUnauthorizedAccount
  else if newOwner =? 0 then Revert OwnableInvalidOwner
  else Ok tt (set_owner newOwner st)
          [OwnershipTransferred (_owner st) newOwner].
Proof.
  unfold transferOwnership, _transferOwnership; tx_unfold; cbn.
  destruct (msg_sender env =? _owner st); cbn; [|reflexivity].
  destruct (newOwner =? 0); reflexivity.
Qed.

Lemma renounceOwnership_eq env st :
  renounceOwnership env st =
  if negb (msg_sender env =? _owner st)
  then Revert OwnableUnauthorizedAccount
  else Ok tt (set_owner 0 st) [OwnershipTransferred (_owner st) 0].
Proof.
  unfold renounceOwnership, _transferOwnership; tx_unfold; cbn.
  destruct (msg_sender env =? _owner st); reflexivity.
Qed.

(** ** What one transaction can do to the storage *)

Lemma exec_effect env call st :
  effect verifyProof env st call (transact env call st)
    (emitted (exec env call st)).
Proof.
  unfold Registry.transact.
  destruct call as [id pk hd|id prf input|id dh data prf input
                   |id|id|id| | | | |newOwner|];
    unfold Registry.exec; try (tx_unfold; cbn; apply effect_none).
  - unfold fmap, Tx_fmap, mbind, Tx_bind, mret, Tx_ret.
    rewrite registerDevice_eq.
    destruct (_paused st) eqn:Hp; cbn; [apply effect_none|].
    destruct (registeredAt (devices_at st id) =? 0) eqn:Hr; cbn;
      [|apply effect_none].
    destruct (id =? 0) eqn:Hz; cbn; [apply effect_none|].
    destruct (pk =? 0); cbn; [apply effect_none|].
    destruct (totalDevices st <? MAX_UINT256) eqn:Ht; cbn;
      [|apply effect_none].
    apply effect_register; [lia..|done].
  - unfold fmap, Tx_fmap, mbind, Tx_bind, mret, Tx_ret.
    rewrite authenticate_eq.
    destruct (_paused st); cbn; [apply effect_none|].
    destruct (isActive (devices_at st id)); cbn; [|apply effect_none].
    destruct (input0 input =? id); cbn; [|apply effect_none].
    apply effect_authenticate.
  - unfold fmap, Tx_fmap, mbind, Tx_bind, mret, Tx_ret.
    rewrite recordTransaction_eq.
    destruct (_paused st); cbn; [apply effect_none|].
    destruct (isActive (devices_at st id)) eqn:Ha; cbn;
      [|apply effect_none].
    destruct (input0 input =? id); cbn; [|apply effect_none].
    destruct (verifyProof prf input); cbn; [|apply effect_none].
    by apply effect_record.
  - unfold mbind, Tx_bind, mret, Tx_ret. rewrite transferOwnership_eq.
    destruct (msg_sender env =? _owner st); cbn; [|apply effect_none].
    destruct (newOwner =? 0); cbn; [apply effect_none|apply effect_owner].
  - unfold mbind, Tx_bind, mret, Tx_ret. rewrite renounceOwnership_eq.
    destruct (msg_sender env =? _owner st); cbn;
      [apply effect_owner|apply effect_none].
Qed.

Lemma effect_devices_at env st call st' log id :
  effect verifyProof env st call st' log ->
  devices_at st' id = devices_at st id \/
  exists pk hd, call = CallRegisterDevice id pk hd /\
                devices_at st' id = new_device env id pk hd.
Proof.
  destruct 1 as [call|id' pk hd Hreg Hid Htot Hp| | |]; auto.
  unfold devices_at; cbn.
  destruct (decide (id' = id)) as [->|Hne].
  - right. exists pk, hd. by rewrite lookup_insert_eq.
  - left. by rewrite lookup_insert_ne.
Qed.

(** No call clears an activity flag. *)
Lemma transact_keeps_active env call st id :
  isDeviceActive st id = true ->
  isDeviceActive (transact env call st) id = true.
Proof.
  unfold isDeviceActive. intros Hact.
  destruct (effect_devices_at _ _ _ _ _ id (exec_effect env call st))
    as [->|(pk & hd & _ & ->)]; done.
Qed.

(** No call logs [DeviceDeactivated]. *)
Lemma exec_never_deactivated env call st id ts :
  DeviceDeactivated id ts ∉ emitted (exec env call st).
Proof.
  destruct (exec_effect env call st);
    rewrite ?list_elem_of_singleton; try apply not_elem_of_nil; done.
Qed.

(** A call that is not a registration of [id] leaves [devices[id]] alone. *)
Lemma transact_devices_at env call st id :
  (forall pk hd, call <> CallRegisterDevice id pk hd) ->
  devices_at (transact env call st) id = devices_at st id.
Proof.
  intros Hcall.
  destruct (effect_devices_at _ _ _ _ _ id (exec_effect env call st))
    as [->|(pk & hd & -> & _)]; [done|].
  by destruct (Hcall pk hd).
Qed.

(** ** The invariant *)

Lemma invariant_constructor initialOwner verifierAddress st0 :
  constructor initialOwner verifierAddress = Some st0 -> invariant st0.
Proof.
  unfold constructor, deployment. destruct (initialOwner =? 0); [done|].
  intros [= <-]. repeat split; cbn; try done.
  all: intros id d Hd; by rewrite lookup_empty in Hd.
Qed.

Lemma invariant_fresh st id :
  invariant st -> registeredAt (devices_at st id) = 0 ->
  devices st !! id = None.
Proof.
  intros (_ & Hdev & _) Hreg. unfold devices_at in Hreg.
  destruct (devices st !! id) as [d|] eqn:Hd; [|done].
  destruct (Hdev id d Hd) as (Hpos & _). cbn in Hreg. lia.
Qed.

Lemma invariant_effect env st call st' log :
  invariant st -> valid_env env -> valid_call call ->
  effect verifyProof env st call st' log -> invariant st'.
Proof.
  intros Hinv (_ & Hts) Hcall Heff.
  destruct Heff as [call|id pk hd Hreg Hid Htot Hp| | |]; try done.
  - pose proof (invariant_fresh _ _ Hinv Hreg) as Hfresh.
    destruct Hinv as (_ & Hdev & Hsize). split; [done|]. split.
    + cbn. intros id0 d Hd.
      destruct (decide (id = id0)) as [<-|Hne].
      * rewrite lookup_insert_eq in Hd. injection Hd as <-. cbn.
        destruct Hcall as [[? ?] _]. repeat split; try done; lia.
      * rewrite lookup_insert_ne in Hd by done. by apply Hdev.
    + cbn. rewrite map_size_insert_None by done. lia.
Qed.

Lemma invariant_transact env call st :
  invariant st -> valid_env env -> valid_call call ->
  invariant (transact env call st).
Proof.
  intros Hinv Henv Hcall.
  exact (invariant_effect _ _ _ _ _ Hinv Henv Hcall (exec_effect env call st)).
Qed.

Lemma invariant_steps st st' :
  invariant st -> steps st st' -> invariant st'.
Proof.
  intros Hinv. induction 1; [done|]. apply invariant_transact; auto.
Qed.

Lemma reachable_invariant st : reachable st -> invariant st.
Proof.
  intros (o & v & st0 & Hinit & Hsteps).
  eapply invariant_steps; [|exact Hsteps].
  by eapply invariant_constructor.
Qed.

Lemma steps_trans st1 st2 st3 :
  steps st1 st2 -> steps st2 st3 -> steps st1 st3.
Proof.
  intros H12. induction 1; [done|]. apply steps_call; auto.
Qed.

Lemma reachable_steps st st' :
  reachable st -> steps st st' -> reachable st'.
Proof.
  intros (o & v & st0 & Hinit & Hsteps) Hst.
  exists o, v, st0. split; [done|]. by eapply steps_trans.
Qed.

(** ** The dispatcher on the three mutating functions *)

Lemma exec_registerDevice env id pk hd st :
  exec env (CallRegisterDevice id pk hd) st =
  lift_bool (registerDevice env id pk hd st).
Proof.
  unfold Registry.exec, fmap, Tx_fmap, mbind, Tx_bind, mret, Tx_ret.
  destruct (registerDevice env id pk hd st); cbn; by rewrite ?app_nil_r.
Qed.

Lemma exec_authenticate env id prf input st :
  exec env (CallAuthenticate id prf input) st =
  lift_bool (authenticate env id prf input st).
Proof.
  unfold Registry.exec, fmap, Tx_fmap, mbind, Tx_bind, mret, Tx_ret.
  destruct (authenticate env id prf input st); cbn; by rewrite ?app_nil_r.
Qed.

Lemma exec_recordTransaction env id dh data prf input st :
  exec env (CallRecordTransaction id dh data prf input) st =
  lift_bool (recordTransaction env id dh data prf input st).
Proof.
  unfold Registry.exec, fmap, Tx_fmap, mbind, Tx_bind, mret, Tx_ret.
  destruct (recordTransaction env id dh data prf input st); cbn;
    by rewrite ?app_nil_r.
Qed.

(** ** Registered devices stay *)

Lemma registered_present st id :
  invariant st -> isDeviceRegistered st id = true ->
  exists d, devices st !! id = Some d /\ 0 < registeredAt d /\
            isActive d = true.
Proof.
  intros (_ & Hdev & _). unfold isDeviceRegistered, devices_at.
  destruct (devices st !! id) as [d|] eqn:Hd; cbn; [|done].
  intros _. exists d. destruct (Hdev id d Hd) as (? & ? & _). done.
Qed.

Lemma present_registered st id d :
  invariant st -> devices st !! id = Some d ->
  isDeviceRegistered st id = true /\ isDeviceActive st id = true.
Proof.
  intros (_ & Hdev & _) Hd. destruct (Hdev id d Hd) as (Hpos & Hact & _).
  unfold isDeviceRegistered, isDeviceActive, devices_at. rewrite Hd. cbn.
  split; [|done]. apply negb_true_iff, Z.eqb_neq. lia.
Qed.

Lemma present_effect env st call st' log id d :
  invariant st -> effect verifyProof env st call st' log ->
  devices st !! id = Some d -> devices st' !! id = Some d.
Proof.
  intros Hinv Heff Hd.
  destruct Heff as [call|id' pk hd Hreg Hid Htot Hp| | |]; try done.
  cbn. rewrite lookup_insert_ne; [done|]. intros ->.
  pose proof (invariant_fresh _ _ Hinv Hreg). congruence.
Qed.

Lemma present_steps st st' id d :
  invariant st -> steps st st' ->
  devices st !! id = Some d -> devices st' !! id = Some d.
Proof.
  intros Hinv Hsteps Hd. induction Hsteps as [|st st' env call Hs IH]; [done|].
  eapply present_effect; [|apply exec_effect|by apply IH].
  by eapply invariant_steps.
Qed.

(** ** The device counter cannot overflow *)

Lemma totalDevices_room st id :
  invariant st -> devices st !! id = None -> 1 <= id <= MAX_UINT256 ->
  totalDevices st < MAX_UINT256.
Proof.
  intros (_ & Hdev & Hsize) Hfresh Hid.
  assert (size (<[id := zeroDevice]> (devices st)) <= Z.to_nat MAX_UINT256)%nat
    as Hbound.
  { apply size_keys_bounded. intros k Hk.
    rewrite Z2Nat.id by lia.
    apply lookup_insert_is_Some in Hk as [<-|[_ [d Hd]]]; [done|].
    by destruct (Hdev k d Hd) as (_ & _ & ?). }
  rewrite map_size_insert_None in Hbound by done. lia.
Qed.

(** A registration of a fresh non-zero identifier with a non-zero key hash
    goes through. *)
Lemma registerDevice_succeeds st env id pk hd :
  reachable st -> is_uint256 id ->
  isDeviceRegistered st id = false -> id <> 0 -> pk <> 0 ->
  registerDevice env id pk hd st =
  Ok true
     (set_totalDevices (totalDevices st + 1)
        (set_device id (new_device env id pk hd) st))
     [DeviceRegistered id (block_timestamp env)].
Proof.
  intros Hreach [Hlo Hhi] Hunreg Hid Hpk.
  pose proof (reachable_invariant _ Hreach) as Hinv.
  rewrite registerDevice_eq.
  destruct Hinv as (Hp & Hdev & Hsize). rewrite Hp.
  unfold isDeviceRegistered in Hunreg. rewrite Hunreg. cbn.
  apply negb_false_iff, Z.eqb_eq in Hunreg.
  destruct (id =? 0) eqn:E; [lia|]. destruct (pk =? 0) eqn:E'; [lia|].
  assert (totalDevices st < MAX_UINT256) as Hroom.
  { apply (totalDevices_room st id); [done| |lia].
    by apply invariant_fresh. }
  apply Z.ltb_lt in Hroom. by rewrite Hroom.
Qed.

(** ** recordTransaction: the proof is a hard gate *)

(** C1: on an active device bound to [publicInputs[0]], a rejected proof
    makes [recordTransaction] revert with "Invalid proof", the storage
    staying as it was and nothing being logged; an accepted proof appends
    exactly one record to the device's log, so its transaction count goes up
    by one, touches nothing else, and logs [TransactionRecorded]. *)
Theorem C1_recordTransaction_proof_gate st env id dh data prf input :
  reachable st ->
  isDeviceActive st id = true ->
  input0 input = id ->
  let call := CallRecordTransaction id dh data prf input in
  (verifyProof prf input = false ->
     recordTransaction env id dh data prf input st = Revert ProofRejected /\
     transact env call st = st /\
     emitted (exec env call st) = []) /\
  (verifyProof prf input = true ->
     let st' := transact env call st in
     recordTransaction env id dh data prf input st =
       Ok true st' [TransactionRecorded id dh (block_timestamp env)] /\
     emitted (exec env call st) =
       [TransactionRecorded id dh (block_timestamp env)] /\
     transactions_at st' id =
       transactions_at st id ++ [new_transaction env id dh data] /\
     getTransactionCount st' id = getTransactionCount st id + 1 /\
     (forall id', id' <> id -> transactions_at st' id' = transactions_at st id') /\
     devices st' = devices st /\
     totalDevices st' = totalDevices st).
Proof.
  intros Hreach Hact Hbind call.
  destruct (reachable_invariant _ Hreach) as (Hp & _).
  unfold isDeviceActive in Hact.
  assert ((input0 input =? id) = true) as Hb by (by apply Z.eqb_eq).
  unfold Registry.transact, call. rewrite exec_recordTransaction.
  rewrite recordTransaction_eq, Hp, Hact, Hb. cbn.
  split; intros ->; cbn; [done|].
  repeat split.
  - unfold transactions_at at 1. cbn. by rewrite lookup_insert_eq.
  - unfold getTransactionCount, transactions_at at 1. cbn.
    rewrite lookup_insert_eq. cbn. rewrite length_app. cbn. lia.
  - intros id' Hne. unfold transactions_at at 1. cbn.
    by rewrite lookup_insert_ne.
Qed.

(** ** authenticate: the proof result is reported, not enforced *)

(** C2: on an active device bound to [publicInputs[0]], [authenticate]
    succeeds whatever [verifyProof] answers: it returns that answer, logs
    [AuthenticationAttempt(deviceId, answer)] and leaves the storage alone. *)
Theorem C2_authenticate_reports_result st env id prf input :
  reachable st ->
  isDeviceActive st id = true ->
  input0 input = id ->
  let success := verifyProof prf input in
  authenticate env id prf input st =
    Ok success st [AuthenticationAttempt id success] /\
  emitted (exec env (CallAuthenticate id prf input) st) =
    [AuthenticationAttempt id success] /\
  transact env (CallAuthenticate id prf input) st = st.
Proof.
  intros Hreach Hact Hbind success.
  destruct (reachable_invariant _ Hreach) as (Hp & _).
  unfold isDeviceActive in Hact.
  assert ((input0 input =? id) = true) as Hb by (by apply Z.eqb_eq).
  unfold Registry.transact. rewrite exec_authenticate.
  by rewrite authenticate_eq, Hp, Hact, Hb.
Qed.

(** ** registerDevice: once per identifier *)

Lemma registerDevice_Ok_inv env id pk hd st ret st1 log :
  registerDevice env id pk hd st = Ok ret st1 log ->
  ret = true /\
  st1 = set_totalDevices (totalDevices st + 1)
          (set_device id (new_device env id pk hd) st) /\
  log = [DeviceRegistered id (block_timestamp env)].
Proof.
  rewrite registerDevice_eq.
  destruct (_paused st); [done|].
  destruct (negb (registeredAt (devices_at st id) =? 0)); [done|].
  destruct (id =? 0); [done|]. destruct (pk =? 0); [done|].
  destruct (negb (totalDevices st <? MAX_UINT256)); [done|].
  by intros [= <- <- <-].
Qed.

(** C3: a registration that succeeds stores an active device record under
    the identifier, adds one to [totalDevices] and logs [DeviceRegistered];
    from then on, after any further transactions, every registration of
    the same identifier reverts with "Device already registered" and changes
    neither the device records, nor the transaction logs, nor the counter. *)
Theorem C3_register_once st env id pk hd ret st1 log :
  reachable st -> valid_env env ->
  valid_call (CallRegisterDevice id pk hd) ->
  registerDevice env id pk hd st = Ok ret st1 log ->
  (ret = true /\
   log = [DeviceRegistered id (block_timestamp env)] /\
   devices_at st1 id = new_device env id pk hd /\
   isDeviceRegistered st1 id = true /\
   isDeviceActive st1 id = true /\
   totalDevices st1 = totalDevices st + 1) /\
  (forall st2 env' pk' hd',
     steps st1 st2 ->
     let again := CallRegisterDevice id pk' hd' in
     registerDevice env' id pk' hd' st2 = Revert AlreadyRegistered /\
     transact env' again st2 = st2 /\
     emitted (exec env' again st2) = []).
Proof.
  intros Hreach Henv Hcall Hok.
  assert (st1 = transact env (CallRegisterDevice id pk hd) st) as Hst1.
  { unfold Registry.transact. by rewrite exec_registerDevice, Hok. }
  assert (reachable st1) as Hreach1.
  { rewrite Hst1. eapply reachable_steps; [exact Hreach|].
    apply steps_call; [apply steps_refl|done|done]. }
  pose proof (reachable_invariant _ Hreach1) as Hinv1.
  destruct (registerDevice_Ok_inv _ _ _ _ _ _ _ _ Hok) as (-> & Hst & ->).
  assert (devices st1 !! id = Some (new_device env id pk hd)) as Hnew.
  { rewrite Hst. cbn. by rewrite lookup_insert_eq. }
  destruct (present_registered _ _ _ Hinv1 Hnew) as (Hregd & Hactive).
  split.
  - repeat split; try done.
    + unfold devices_at. by rewrite Hnew.
    + by rewrite Hst.
  - intros st2 env' pk' hd' Hsteps again.
    pose proof (invariant_steps _ _ Hinv1 Hsteps) as Hinv2.
    pose proof (present_steps _ _ _ _ Hinv1 Hsteps Hnew) as Hnew2.
    destruct (present_registered _ _ _ Hinv2 Hnew2) as (Hregd2 & _).
    destruct Hinv2 as (Hp2 & _).
    unfold isDeviceRegistered in Hregd2.
    unfold Registry.transact, again. rewrite exec_registerDevice.
    by rewrite registerDevice_eq, Hp2, Hregd2.
Qed.

(** ** authenticate: who may try *)

(** C4: on an active device, a call whose [publicInputs[0]] is not the
    claimed identifier makes [authenticate] revert with "Device ID
    mismatch", with no event and no change of storage, and that for every
    verifier and every proof. *)
Theorem C4_authenticate_binding_mismatch st env id prf input :
  reachable st ->
  isDeviceActive st id = true ->
  input0 input <> id ->
  authenticate env id prf input st = Revert BindingMismatch /\
  emitted (exec env (CallAuthenticate id prf input) st) = [] /\
  transact env (CallAuthenticate id prf input) st = st /\
  (forall verifyProof' prf',
     Registry.authenticate verifyProof' env id prf' input st =
     Revert BindingMismatch).
Proof.
  intros Hreach Hact Hbind.
  destruct (reachable_invariant _ Hreach) as (Hp & _).
  unfold isDeviceActive in Hact.
  assert ((input0 input =? id) = false) as Hb by (by apply Z.eqb_neq).
  unfold Registry.transact. rewrite exec_authenticate.
  rewrite authenticate_eq, Hp, Hact, Hb. repeat split.
  intros verifyProof' prf'.
  unfold Registry.authenticate; tx_unfold.
  rewrite Hp; cbn. rewrite Hact; cbn. by rewrite Hb.
Qed.

(** C5: on an identifier with no device record, or with a record that is
    not active, [authenticate] reverts with "Device not active", with no
    event and no change of storage. *)
Theorem C5_authenticate_not_active st env id prf input :
  reachable st ->
  devices st !! id = None \/ isActive (devices_at st id) = false ->
  authenticate env id prf input st = Revert NotActive /\
  emitted (exec env (CallAuthenticate id prf input) st) = [] /\
  transact env (CallAuthenticate id prf input) st = st.
Proof.
  intros Hreach Hnot.
  destruct (reachable_invariant _ Hreach) as (Hp & _).
  assert (isActive (devices_at st id) = false) as Hact.
  { destruct Hnot as [Habs|?]; [|done].
    unfold devices_at. by rewrite Habs. }
  unfold Registry.transact. rewrite exec_authenticate.
  by rewrite authenticate_eq, Hp, Hact.
Qed.

(** ** No way back from active *)

(** C7 (as the code has it): the registry has no deactivation entry point:
    whatever call is made, by the owner or anyone else, an active device is
    still active afterwards and no [DeviceDeactivated] event is logged. *)
Theorem C7_no_deactivation_entry_point st env call id :
  isDeviceActive st id = true ->
  isDeviceActive (transact env call st) id = true /\
  (forall id' ts, DeviceDeactivated id' ts ∉ emitted (exec env call st)).
Proof.
  intros Hact. split; [by apply transact_keeps_active|].
  intros id' ts. apply exec_never_deactivated.
Qed.

(** C10: in every state the registry can reach, an active device is a
    registered one; a registered device is still registered, and active,
    after any further transactions; and only a [registerDevice] call on an
    identifier writes that identifier's record, and with it the flag. *)
Theorem C10_active_implies_registered_forever st id :
  reachable st ->
  (isDeviceActive st id = true -> isDeviceRegistered st id = true) /\
  (isDeviceRegistered st id = true ->
   forall st', steps st st' ->
     isDeviceRegistered st' id = true /\ isDeviceActive st' id = true) /\
  (forall env call,
     (forall pk hd, call <> CallRegisterDevice id pk hd) ->
     devices_at (transact env call st) id = devices_at st id) /\
  (forall env call,
     isDeviceActive st id = true ->
     isDeviceActive (transact env call st) id = true).
Proof.
  intros Hreach. pose proof (reachable_invariant _ Hreach) as Hinv.
  split; [|split; [|split]].
  - unfold isDeviceActive, devices_at.
    destruct (devices st !! id) as [d|] eqn:Hd; [|done].
    intros _. by destruct (present_registered _ _ _ Hinv Hd).
  - intros Hregd st' Hsteps.
    destruct (registered_present _ _ Hinv Hregd) as (d & Hd & _).
    pose proof (present_steps _ _ _ _ Hinv Hsteps Hd) as Hd'.
    pose proof (invariant_steps _ _ Hinv Hsteps) as Hinv'.
    exact (present_registered _ _ _ Hinv' Hd').
  - intros env call Hcall. by apply transact_devices_at.
  - intros env call Hact. by apply transact_keeps_active.
Qed.

End Facts.

(** ** The theorems at the example deployment *)

Lemma C1_witness :
  getTransactionCount
    (Registry.transact accept_all env2
       (CallRecordTransaction device1 7 [] proof1 inputs1)
       (registered1 accept_all)) device1 =
  getTransactionCount (registered1 accept_all) device1 + 1.
Proof.
  assert (Registry.reachable accept_all (registered1 accept_all)) as Hreach.
  { exists 1, 2, deployed. split; [reflexivity|].
    apply steps_call; [apply steps_refl| |];
      repeat split; vm_compute; congruence. }
  assert (isDeviceActive (registered1 accept_all) device1 = true) as Hact
    by (vm_compute; reflexivity).
  destruct (C1_recordTransaction_proof_gate accept_all
              (registered1 accept_all) env2 device1 7 [] proof1 inputs1
              Hreach Hact eq_refl) as [_ Hvalid].
  destruct (Hvalid eq_refl) as (_ & _ & _ & Hcount & _).
  exact Hcount.
Defined.

Lemma C2_witness :
  Registry.authenticate reject_all env2 device1 proof1 inputs1
    (registered1 reject_all) =
  Ok false (registered1 reject_all) [AuthenticationAttempt device1 false].
Proof.
  assert (Registry.reachable reject_all (registered1 reject_all)) as Hreach.
  { exists 1, 2, deployed. split; [reflexivity|].
    apply steps_call; [apply steps_refl| |];
      repeat split; vm_compute; congruence. }
  assert (isDeviceActive (registered1 reject_all) device1 = true) as Hact
    by (vm_compute; reflexivity).
  exact (proj1 (C2_authenticate_reports_result reject_all
                  (registered1 reject_all) env2 device1 proof1 inputs1
                  Hreach Hact eq_refl)).
Defined.

Lemma C3_witness :
  registerDevice env2 device1 77 [] (registered1 accept_all) =
  Revert AlreadyRegistered.
Proof.
  assert (Registry.reachable accept_all deployed) as Hreach.
  { exists 1, 2, deployed. split; [reflexivity|apply steps_refl]. }
  assert (valid_env env1) as Henv
    by (repeat split; vm_compute; congruence).
  assert (valid_call register1) as Hcall
    by (repeat split; vm_compute; congruence).
  assert (registerDevice env1 device1 99 [] deployed =
          Ok true (registered1 accept_all)
             [DeviceRegistered device1 1700000000]) as Hok
    by (vm_compute; reflexivity).
  destruct (C3_register_once accept_all deployed env1 device1 99 [] _ _ _
              Hreach Henv Hcall Hok) as [_ Hsecond].
  exact (proj1 (Hsecond (registered1 accept_all) env2 77 []
                  (steps_refl _ _))).
Defined.

Lemma C4_witness :
  Registry.authenticate accept_all env2 device1 proof1 inputs_other
    (registered1 accept_all) = Revert BindingMismatch.
Proof.
  assert (Registry.reachable accept_all (registered1 accept_all)) as Hreach.
  { exists 1, 2, deployed. split; [reflexivity|].
    apply steps_call; [apply steps_refl| |];
      repeat split; vm_compute; congruence. }
  assert (isDeviceActive (registered1 accept_all) device1 = true) as Hact
    by (vm_compute; reflexivity).
  assert (input0 inputs_other <> device1) as Hne by (vm_compute; discriminate).
  exact (proj1 (C4_authenticate_binding_mismatch accept_all
                  (registered1 accept_all) env2 device1 proof1 inputs_other
                  Hreach Hact Hne)).
Defined.

Lemma C5_witness :
  Registry.authenticate accept_all env2 device1 proof1 inputs1 deployed =
  Revert NotActive.
Proof.
  assert (Registry.reachable accept_all deployed) as Hreach.
  { exists 1, 2, deployed. split; [reflexivity|apply steps_refl]. }
  exact (proj1 (C5_authenticate_not_active accept_all deployed env2 device1
                  proof1 inputs1 Hreach (or_introl eq_refl))).
Defined.

(** [registeredAt] doubles as the existence flag of a record, so the
    properties of registration rest on [block.timestamp] being positive: in
    a block stamped [0] a registration would store an active record that
    does not read as registered. *)
Example registration_at_timestamp_zero :
  let st := Registry.transact accept_all env_genesis register1 deployed in
  isDeviceActive st device1 = true /\ isDeviceRegistered st device1 = false.
Proof. split; vm_compute; reflexivity. Qed.

(** C7, as the specification words it, fails on the registry: with
    [device1] registered and active, no call by any sender clears its flag
    or logs [DeviceDeactivated]. *)
Lemma C7_counterexample :
  ~ exists env call,
      isDeviceActive
        (Registry.transact accept_all env call (registered1 accept_all))
        device1 = false \/
      exists ts,
        DeviceDeactivated device1 ts ∈
          emitted (Registry.exec accept_all env call (registered1 accept_all)).
Proof.
  assert (isDeviceActive (registered1 accept_all) device1 = true) as Hact
    by (vm_compute; reflexivity).
  intros (env & call & [Hoff|[ts Hev]]).
  - rewrite (transact_keeps_active accept_all env call _ _ Hact) in Hoff.
    discriminate.
  - exact (exec_never_deactivated accept_all env call _ device1 ts Hev).
Qed.

Lemma C7_witness :
  isDeviceActive
    (Registry.transact accept_all env1 CallRenounceOwnership
       (registered1 accept_all)) device1 = true.
Proof.
  assert (isDeviceActive (registered1 accept_all) device1 = true) as Hact
    by (vm_compute; reflexivity).
  exact (proj1 (C7_no_deactivation_entry_point accept_all
                  (registered1 accept_all) env1 CallRenounceOwnership device1
                  Hact)).
Defined.

Lemma C10_witness :
  isDeviceRegistered (registered1 accept_all) device1 = true.
Proof.
  assert (Registry.reachable accept_all (registered1 accept_all)) as Hreach.
  { exists 1, 2, deployed. split; [reflexivity|].
    apply steps_call; [apply steps_refl| |];
      repeat split; vm_compute; congruence. }
  assert (isDeviceActive (registered1 accept_all) device1 = true) as Hact
    by (vm_compute; reflexivity).
  exact (proj1 (C10_active_implies_registered_forever accept_all
                  (registered1 accept_all) device1 Hreach) Hact).
Defined.

End RegistryFacts.

(** * Properties of the proof cache *)
Module ProofCacheFacts.

Import ProofCache.

Section Facts.

Context {Proof PublicSignals : Type}.

#[local] Abbreviation Cache := (ProofCache.ProofCache Proof PublicSignals).
#[local] Abbreviation Entry := (ProofCache.CacheEntry Proof PublicSignals).

Lemma get_miss now (this : Cache) deviceId challenge :
  cache this !! getKey deviceId challenge = None ->
  get now this deviceId challenge = (None, this).
Proof. unfold get. by intros ->. Qed.

Lemma get_expired now (this : Cache) deviceId challenge (entry : Entry) :
  cache this !! getKey deviceId challenge = Some entry ->
  now - timestamp entry > timeout this ->
  get now this deviceId challenge =
  (None, {| cache := delete (getKey deviceId challenge) (cache this);
            timeout := timeout this |}).
Proof.
  unfold get. intros -> Hage.
  destruct (Z.gtb_spec (now - timestamp entry) (timeout this)); [done|lia].
Qed.

Lemma get_fresh now (this : Cache) deviceId challenge (entry : Entry) :
  cache this !! getKey deviceId challenge = Some entry ->
  now - timestamp entry <= timeout this ->
  get now this deviceId challenge = (Some entry, this).
Proof.
  unfold get. intros -> Hage.
  destruct (Z.gtb_spec (now - timestamp entry) (timeout this)); [lia|done].
Qed.

(** C8: a read of a key whose stored entry is older than the time-out
    returns nothing and removes the entry, leaving the other keys as they
    were; so whatever [get] returns is the stored entry and is not older
    than the time-out, and an entry written by [set] is no longer returned
    once the clock is past the time-out. *)
Theorem C8_expired_entry_never_returned
    now (this : Cache) deviceId challenge :
  let key := getKey deviceId challenge in
  let result := get now this deviceId challenge in
  (forall entry,
     cache this !! key = Some entry ->
     now - timestamp entry > timeout this ->
     result.1 = None /\
     cache result.2 !! key = None /\
     (forall key', key' <> key -> cache result.2 !! key' = cache this !! key') /\
     timeout result.2 = timeout this) /\
  (forall entry,
     result.1 = Some entry ->
     cache this !! key = Some entry /\
     now - timestamp entry <= timeout this /\
     result.2 = this) /\
  (forall stored_at proof publicSignals,
     now - stored_at > timeout this ->
     (get now (set stored_at this deviceId challenge proof publicSignals)
        deviceId challenge).1 = None).
Proof.
  intros key result. split; [|split].
  - intros entry Hstored Hage. unfold result.
    rewrite (get_expired _ _ _ _ entry Hstored Hage). cbn.
    repeat split.
    + apply lookup_delete_eq.
    + intros key' Hne. by apply lookup_delete_ne.
  - intros entry. unfold result, get. fold key.
    destruct (cache this !! key) as [e|]; [|done].
    destruct (Z.gtb_spec (now - timestamp e) (timeout this)); [done|].
    cbn. intros [= ->]. repeat split; [lia..].
  - intros stored_at proof publicSignals Hage.
    rewrite (get_expired now _ _ _
               {| proof := proof; publicSignals := publicSignals;
                  timestamp := stored_at |}); [done| |done].
    cbn. apply lookup_insert_eq.
Qed.

End Facts.

Lemma C8_witness :
  (get 400001
     (set 100000 (constructor default_timeoutMs) "0xab" "0xcd"
        "pi" ["1"; "2"; "3"])
     "0xab" "0xcd").1 = None.
Proof.
  exact (proj2 (proj2 (C8_expired_entry_never_returned 400001
                         (constructor (Proof := string)
                            (PublicSignals := list string)
                            default_timeoutMs)
                         "0xab" "0xcd"))
           100000 "pi"%string ["1"; "2"; "3"]%string eq_refl).
Defined.

End ProofCacheFacts.

(** * Properties of the commitment *)
Module CommitmentFacts.

Import Commitment.

Lemma maxField_pos : 0 < maxField.
Proof. reflexivity. Qed.

Lemma maxField_254_bits : maxField < 2 ^ 254.
Proof. reflexivity. Qed.

Lemma Fe_range x : 0 <= Fe x < maxField.
Proof. apply Z.mod_pos_bound, maxField_pos. Qed.

Lemma Fe_idemp x : Fe (Fe x) = Fe x.
Proof. unfold Fe. apply Z.mod_mod. pose proof maxField_pos. lia. Qed.

(** Every field element passes the 254-bit range check. *)
Lemma Num2Bits_254_Fe x : Num2Bits 254 (Fe x) = true.
Proof.
  unfold Num2Bits. pose proof (Fe_range x). pose proof maxField_254_bits.
  apply andb_true_intro. split; [apply Z.leb_le|apply Z.ltb_lt]; lia.
Qed.

Section Facts.

Variable sha256 : string -> N.
Variable Poseidon : list Z -> Z.

#[local] Abbreviation generateResponse := (Commitment.generateResponse sha256).
#[local] Abbreviation generateExpectedHash :=
  (Commitment.generateExpectedHash sha256).
#[local] Abbreviation buildPoseidon := (Commitment.buildPoseidon Poseidon).
#[local] Abbreviation initialize := (Commitment.initialize Poseidon).
#[local] Abbreviation computedHash := (Commitment.computedHash Poseidon).
#[local] Abbreviation DeviceAuth := (Commitment.DeviceAuth Poseidon).
#[local] Abbreviation generateProof := (Commitment.generateProof Poseidon).

(** What [generateResponse] returns is memoised under its key afterwards. *)
Lemma generateResponse_memoised this deviceId challenge :
  let '(response, this') := generateResponse this deviceId challenge in
  responseMap this' !! response_key deviceId challenge = Some response /\
  poseidon this' = poseidon this /\ seed this' = seed this.
Proof.
  unfold Commitment.generateResponse.
  destruct (responseMap this !! response_key deviceId challenge) eqn:Hhit.
  - done.
  - cbn. by rewrite lookup_insert_eq.
Qed.

(** A second call returns the memoised response and changes nothing. *)
Lemma generateResponse_again this deviceId challenge response :
  responseMap this !! response_key deviceId challenge = Some response ->
  generateResponse this deviceId challenge = (response, this).
Proof. unfold Commitment.generateResponse. by intros ->. Qed.

(** Within one simulator the response to a challenge never changes. *)
Lemma generateResponse_stable this deviceId challenge :
  let '(response, this') := generateResponse this deviceId challenge in
  generateResponse this' deviceId challenge = (response, this').
Proof.
  pose proof (generateResponse_memoised this deviceId challenge) as H.
  destruct (generateResponse this deviceId challenge) as [response this'].
  destruct H as (H & _). by apply generateResponse_again.
Qed.

Lemma memo_consistent_generateResponse this deviceId challenge :
  memo_consistent sha256 this ->
  memo_consistent sha256 (generateResponse this deviceId challenge).2.
Proof.
  intros Hmemo. unfold Commitment.generateResponse.
  destruct (responseMap this !! response_key deviceId challenge) eqn:Hhit;
    [done|].
  intros key response. cbn.
  destruct (decide (response_key deviceId challenge = key)) as [<-|Hne].
  - rewrite lookup_insert_eq. by intros [= <-].
  - rewrite lookup_insert_ne by done. apply Hmemo.
Qed.

(** The hash outside the proof and the hash inside it are one function of
    the pair (response, challenge), in that order. *)
Lemma buildPoseidon_computedHash response challenge :
  buildPoseidon [response; challenge] = computedHash response challenge.
Proof. reflexivity. Qed.

Lemma computedHash_canonical response challenge :
  Fe (computedHash response challenge) = computedHash response challenge.
Proof. apply Fe_idemp. Qed.

Lemma DeviceAuth_iff deviceId challenge expectedHash response :
  DeviceAuth deviceId challenge expectedHash response = true <->
  Fe expectedHash = computedHash response challenge.
Proof.
  unfold Commitment.DeviceAuth. rewrite !Num2Bits_254_Fe. cbn.
  rewrite Z.eqb_eq. split; congruence.
Qed.

(** C6: the commitment [generateExpectedHash] computes outside the proof is
    the value of the circuit's [computedHash] signal on the same response
    and challenge; with it as [expectedHash] the constraints of the
    circuit hold, with any other field element they fail; and the proof
    issued for that statement verifies against it and against no statement
    with another commitment. *)
Theorem C6_commitment_is_circuit_hash this deviceId challenge :
  (forall response challenge,
     buildPoseidon [response; challenge] = computedHash response challenge) /\
  let sim := initialize this in
  let response := (generateResponse sim deviceId challenge).1 in
  let sim' := (generateResponse sim deviceId challenge).2 in
  let commitment := computedHash response challenge in
  generateExpectedHash sim deviceId challenge = Some (commitment, sim') /\
  DeviceAuth deviceId challenge commitment response = true /\
  (forall other,
     Fe other <> commitment ->
     DeviceAuth deviceId challenge other response = false) /\
  exists proof,
    generateProof {| in_deviceId := deviceId;
                     in_challenge := challenge;
                     in_response := response;
                     in_expectedHash := commitment |} =
      Some (proof, [Fe deviceId; Fe challenge; commitment]) /\
    verify proof [Fe deviceId; Fe challenge; commitment] = Some true /\
    (forall other,
       other <> commitment ->
       verify proof [Fe deviceId; Fe challenge; other] = Some false).
Proof.
  split; [intros; apply buildPoseidon_computedHash|].
  intros sim response sim' commitment.
  assert (DeviceAuth deviceId challenge commitment response = true) as Hsat.
  { apply DeviceAuth_iff. apply computedHash_canonical. }
  repeat split.
  - unfold Commitment.generateExpectedHash, commitment, response, sim'.
    cbn. by destruct (generateResponse sim deviceId challenge).
  - exact Hsat.
  - intros other Hother. apply not_true_is_false.
    intros Hacc. by apply DeviceAuth_iff in Hacc.
  - unfold Commitment.generateProof, publicSignals.
    cbn [in_deviceId in_challenge in_response in_expectedHash].
    rewrite Hsat. unfold commitment at 1 2.
    rewrite (computedHash_canonical response challenge). fold commitment.
    eexists. split; [reflexivity|].
    cbn [verify bound_inputs]. split.
    + by rewrite bool_decide_eq_true_2.
    + intros other Hother. rewrite bool_decide_eq_false_2; [done|].
      intros [= Heq]. by apply Hother.
Qed.

End Facts.

Lemma C6_witness :
  Commitment.generateExpectedHash toy_sha256
    (Commitment.initialize toy_Poseidon (new_PUFSimulator "seed")) 12 34 =
  Some (Commitment.computedHash toy_Poseidon 9 34,
        (Commitment.generateResponse toy_sha256
           (Commitment.initialize toy_Poseidon (new_PUFSimulator "seed"))
           12 34).2).
Proof.
  exact (proj1 (proj2 (C6_commitment_is_circuit_hash toy_sha256 toy_Poseidon
                         (new_PUFSimulator "seed") 12 34))).
Defined.

End CommitmentFacts.

(** * Binary64 arithmetic: the library's algorithm and the rationals *)
Module Binary64Facts.

Import Noise.




































Lemma Qpow2_le a b : a <= b -> (2 ^ a <= 2 ^ b)%Q.
Proof. intros Hab. apply Qpower_le_compat_l; [done|]. done. Qed.














End Binary64Facts.

(** * Properties of the noise injector *)
Module NoiseFacts.

Import Noise Binary64Facts.

(** ** Flipping one bit of a number *)

Lemma lxor_pow2 x k :
  0 <= k ->
  Z.lxor x (2 ^ k) = if Z.testbit x k then x - 2 ^ k else x + 2 ^ k.
Proof.
  intros Hk.
  assert (forall y, Z.testbit y k = false -> Z.lxor y (2 ^ k) = y + 2 ^ k)
    as Hclear.
  { intros y Hy. symmetry. apply Z.add_nocarry_lxor.
    apply Z.bits_inj'. intros m Hm.
    rewrite Z.land_spec, Z.bits_0, Z.pow2_bits_eqb by done.
    destruct (Z.eqb_spec k m) as [<-|]; [by rewrite Hy|apply andb_false_r]. }
  destruct (Z.testbit x k) eqn:Hx; [|by apply Hclear].
  assert (Z.testbit (Z.lxor x (2 ^ k)) k = false) as Hy.
  { by rewrite Z.lxor_spec, Hx, Z.pow2_bits_true. }
  apply Hclear in Hy.
  rewrite Z.lxor_assoc, Z.lxor_nilpotent, Z.lxor_0_r in Hy. lia.
Qed.

Lemma testbit_split d v n m :
  0 <= v < 2 ^ n -> 0 <= n -> 0 <= m ->
  Z.testbit (d * 2 ^ n + v) m =
  if m <? n then Z.testbit v m else Z.testbit d (m - n).
Proof.
  intros Hv Hn Hm. destruct (Z.ltb_spec m n) as [Hlt|Hge].
  - rewrite <- (Z.mod_pow2_bits_low (d * 2 ^ n + v) n m) by done.
    rewrite Z.add_comm, Z.mod_add by lia. by rewrite Z.mod_small.
  - replace m with ((m - n) + n) at 1 by lia.
    rewrite <- Z.div_pow2_bits by lia.
    rewrite Z.add_comm, Z.div_add by lia. rewrite Z.div_small by done.
    done.
Qed.

(** ** Binary digits *)

Lemma binary_digit_binary c :
  is_binary c -> binary_digit c = Some 0 \/ binary_digit c = Some 1.
Proof. intros [->| ->]; [by left|by right]. Qed.

Lemma digits_value_app ds c :
  digits_value (ds ++ [c]) = 2 * digits_value ds + default 0 (binary_digit c).
Proof. unfold digits_value. by rewrite fold_left_app. Qed.

Lemma fold_digits_shift ds v :
  fold_left (fun v c => 2 * v + default 0 (binary_digit c)) ds v =
  v * 2 ^ Z.of_nat (length ds) + digits_value ds.
Proof.
  unfold digits_value. revert v.
  induction ds as [|c ds IH]; intros v; cbn [fold_left length].
  - cbn. lia.
  - rewrite IH, (IH (2 * 0 + _)).
    rewrite Nat2Z.inj_succ, Z.pow_succ_r by lia. lia.
Qed.

Lemma digits_value_cons c ds :
  digits_value (c :: ds) =
  default 0 (binary_digit c) * 2 ^ Z.of_nat (length ds) + digits_value ds.
Proof.
  unfold digits_value at 1. cbn [fold_left]. rewrite fold_digits_shift. lia.
Qed.

Lemma digits_value_range ds :
  Forall is_binary ds -> 0 <= digits_value ds < 2 ^ Z.of_nat (length ds).
Proof.
  induction 1 as [|c ds Hc _ IH].
  - cbn. lia.
  - rewrite digits_value_cons. cbn [length].
    rewrite Nat2Z.inj_succ, Z.pow_succ_r by lia.
    destruct (binary_digit_binary c Hc) as [-> | ->]; cbn; lia.
Qed.

Lemma fold_parse_digits ds v :
  Forall is_binary ds ->
  fold_left (fun acc c =>
               match acc, binary_digit c with
               | Some v, Some d => Some (2 * v + d)
               | _, _ => None
               end) ds (Some v) =
  Some (fold_left (fun v c => 2 * v + default 0 (binary_digit c)) ds v).
Proof.
  intros Hbin. revert v.
  induction Hbin as [|c ds Hc _ IH]; intros v; cbn [fold_left]; [done|].
  destruct (binary_digit_binary c Hc) as [-> | ->]; cbn; apply IH.
Qed.

Lemma BigInt_0b_digits ds :
  ds <> [] -> Forall is_binary ds -> BigInt_0b ds = Some (digits_value ds).
Proof.
  intros Hne Hbin. unfold BigInt_0b, digits_value.
  destruct ds as [|c0 ds0]; [done|]. by apply fold_parse_digits.
Qed.

Lemma digits_of_positive_binary p : Forall is_binary (digits_of_positive p).
Proof.
  induction p; cbn; rewrite ?Forall_app; repeat split; try done;
    repeat constructor; by (left + right).
Qed.

Lemma digits_of_positive_nonempty p : digits_of_positive p <> [].
Proof. destruct p; cbn; try done; by destruct (digits_of_positive p). Qed.

Lemma digits_of_positive_value p : digits_value (digits_of_positive p) = Z.pos p.
Proof.
  induction p; cbn [digits_of_positive]; rewrite ?digits_value_app, ?IHp;
    cbn; lia.
Qed.

Lemma toString2_nonneg r :
  0 <= r ->
  toString2 r <> [] /\ Forall is_binary (toString2 r) /\
  digits_value (toString2 r) = r.
Proof.
  destruct r as [|p|p]; [| |lia]; intros _; cbn [toString2].
  - repeat split; [done|repeat constructor; by left].
  - split; [apply digits_of_positive_nonempty|].
    split; [apply digits_of_positive_binary|apply digits_of_positive_value].
Qed.

Lemma join_Some ds : join (Some <$> ds) = ds.
Proof. unfold join. induction ds; cbn; [done|]. by f_equal. Qed.

(** ** Flips *)

Lemma flipped_binary c : is_binary (flipped c).
Proof. unfold flipped. case_bool_decide; [by right|by left]. Qed.

Lemma length_flip_digit ds k : length (flip_digit ds k) = length ds.
Proof. apply length_insert. Qed.

Lemma flip_digit_binary ds k :
  Forall is_binary ds -> Forall is_binary (flip_digit ds k).
Proof. intros Hbin. apply Forall_insert; [done|apply flipped_binary]. Qed.

Lemma digit_testbit ds i :
  Forall is_binary ds -> (i < length ds)%nat ->
  Z.testbit (digits_value ds) (Z.of_nat (length ds) - 1 - Z.of_nat i) =
  bool_decide (ds !! i = Some "1"%char).
Proof.
  intros Hbin. revert i.
  induction Hbin as [|c ds Hc Hds IH]; intros i Hi; cbn [length] in *; [lia|].
  pose proof (digits_value_range ds Hds) as Hrange.
  rewrite digits_value_cons, testbit_split by lia.
  destruct i as [|i].
  - replace (Z.of_nat (S (length ds)) - 1 - Z.of_nat 0)
      with (Z.of_nat (length ds)) by lia.
    rewrite Z.ltb_irrefl, Z.sub_diag. cbn [lookup list_lookup].
    by destruct Hc as [-> | ->].
  - replace (Z.of_nat (S (length ds)) - 1 - Z.of_nat (S i))
      with (Z.of_nat (length ds) - 1 - Z.of_nat i) by lia.
    destruct (Z.ltb_spec (Z.of_nat (length ds) - 1 - Z.of_nat i)
                (Z.of_nat (length ds))); [|lia].
    cbn [lookup list_lookup]. apply IH. lia.
Qed.

Lemma digit_flipped c :
  is_binary c ->
  default 0 (binary_digit (flipped (Some c))) =
  1 - default 0 (binary_digit c).
Proof. by intros [-> | ->]. Qed.

Lemma digit_is_one c :
  is_binary c ->
  default 0 (binary_digit c) =
  if bool_decide (Some c = Some "1"%char) then 1 else 0.
Proof. by intros [-> | ->]. Qed.

Lemma flip_value ds i :
  Forall is_binary ds -> (i < length ds)%nat ->
  digits_value (<[i := flipped (ds !! i)]> ds) =
  digits_value ds +
  (if bool_decide (ds !! i = Some "1"%char) then -1 else 1) *
  2 ^ (Z.of_nat (length ds) - 1 - Z.of_nat i).
Proof.
  intros Hbin. revert i.
  induction Hbin as [|c ds Hc Hds IH]; intros i Hi; cbn [length] in *; [lia|].
  destruct i as [|i].
  - cbn [lookup list_lookup insert list_insert].
    rewrite !digits_value_cons.
    replace (Z.of_nat (S (length ds)) - 1 - Z.of_nat 0)
      with (Z.of_nat (length ds)) by lia.
    rewrite digit_flipped, (digit_is_one c) by done.
    case_bool_decide; lia.
  - change (digits_value (c :: <[i := flipped (ds !! i)]> ds) =
            digits_value (c :: ds) +
            (if bool_decide (ds !! i = Some "1"%char) then -1 else 1) *
            2 ^ (Z.of_nat (S (length ds)) - 1 - Z.of_nat (S i))).
    rewrite !digits_value_cons, length_insert, IH by lia.
    replace (Z.of_nat (S (length ds)) - 1 - Z.of_nat (S i))
      with (Z.of_nat (length ds) - 1 - Z.of_nat i) by lia.
    lia.
Qed.

Lemma flip_digit_value ds k :
  Forall is_binary ds -> 0 <= k < Z.of_nat (length ds) ->
  digits_value (flip_digit ds k) = flip_bit (length ds) (digits_value ds) k.
Proof.
  intros Hbin Hk. unfold flip_digit, flip_bit.
  rewrite flip_value by (done || lia).
  rewrite lxor_pow2 by lia.
  replace (Z.of_nat (length ds) - 1 - k)
    with (Z.of_nat (length ds) - 1 - Z.of_nat (Z.to_nat k)) by lia.
  rewrite digit_testbit by (done || lia).
  case_bool_decide; lia.
Qed.


(** ** The loop *)

Lemma flip_step_in_range u ds k :
  drawn_index u (length ds) = Some k ->
  0 <= k < Z.of_nat (length ds) ->
  Z.of_nat (length ds) <= max_array_index ->
  flip_step u (Some <$> ds) = Some <$> flip_digit ds k.
Proof.
  unfold drawn_index, flip_step, array_get, array_set, flip_digit.
  intros Hdraw Hk Hmax. rewrite length_fmap, Hdraw.
  assert ((0 <=? k) && (k <? max_array_index) = true) as ->.
  { apply andb_true_intro. split; [apply Z.leb_le|apply Z.ltb_lt]; lia. }
  assert ((k <? Z.of_nat (length ds)) = true) as -> by (apply Z.ltb_lt; lia).
  rewrite list_lookup_fmap, list_fmap_insert. f_equal. f_equal.
  unfold flipped. by destruct (ds !! Z.to_nat k).
Qed.

Lemma flip_loop_in_range random n i ds :
  Forall is_binary ds ->
  Z.of_nat (length ds) <= max_array_index ->
  (forall j, (j < n)%nat ->
     exists k, drawn_index (random (i + j)%nat) (length ds) = Some k /\
               0 <= k < Z.of_nat (length ds)) ->
  flip_loop random n i (Some <$> ds) =
  Some <$> fold_left flip_digit
             ((fun j => default 0 (drawn_index (random j) (length ds)))
                <$> seq i n) ds.
Proof.
  revert i ds. induction n as [|n IH]; intros i ds Hbin Hmax Hdraws; [done|].
  cbn [flip_loop seq fmap list_fmap fold_left].
  destruct (Hdraws 0%nat ltac:(lia)) as (k & Hk & Hrange).
  rewrite Nat.add_0_r in Hk.
  rewrite (flip_step_in_range _ _ k) by done.
  change (list_fmap ?f ?l) with (f <$> l).
  rewrite Hk. cbn [default].
  rewrite IH.
  - by rewrite length_flip_digit.
  - by apply flip_digit_binary.
  - by rewrite length_flip_digit.
  - intros j Hj. rewrite length_flip_digit.
    replace (S i + j)%nat with (i + S j)%nat by lia. apply Hdraws. lia.
Qed.

Lemma fold_flip_digits idxs ds :
  Forall is_binary ds ->
  Forall (fun k => 0 <= k < Z.of_nat (length ds)) idxs ->
  Forall is_binary (fold_left flip_digit idxs ds) /\
  length (fold_left flip_digit idxs ds) = length ds /\
  digits_value (fold_left flip_digit idxs ds) =
  fold_left (flip_bit (length ds)) idxs (digits_value ds).
Proof.
  intros Hbin Hidx. revert ds Hbin Hidx.
  induction idxs as [|k idxs IH]; intros ds Hbin Hidx; cbn [fold_left];
    [done|].
  apply Forall_cons in Hidx as [Hk Hidx].
  destruct (IH (flip_digit ds k)) as (Hbin' & Hlen & Hval).
  - by apply flip_digit_binary.
  - by rewrite length_flip_digit.
  - rewrite length_flip_digit in Hlen, Hval.
    by rewrite <- flip_digit_value.
Qed.

(** ** Numbers *)


Lemma floorZ_negative m e : floorZ true m e <= 0.
Proof.
  unfold floorZ. destruct (0 <=? e) eqn:He.
  - apply Z.leb_le in He. pose proof (Z.pow_pos_nonneg 2 e). nia.
  - apply Z.leb_gt in He.
    assert (0 < 2 ^ (- e)) by (apply Z.pow_pos_nonneg; lia).
    apply Z.div_le_upper_bound; lia.
Qed.

Lemma ceilZ_integer m e k :
  integer_value (S754_finite false m e) = Some k -> ceilZ false m e = k.
Proof.
  unfold integer_value, ceilZ, floorZ. cbn [negb].
  change (Z.neg m) with (- Z.pos m).
  destruct (Z.leb_spec 0 e) as [He|He]; cbn [orb].
  - intros [= <-]. lia.
  - destruct (Z.eqb_spec (Z.pos m mod 2 ^ (- e)) 0) as [Hdiv|]; [|done].
    intros [= <-].
    assert (0 < 2 ^ (- e)) by (apply Z.pow_pos_nonneg; lia).
    rewrite Z.div_opp_l_z by (done || lia). lia.
Qed.

Lemma loop_iterations_integer x k :
  integer_value x = Some k -> k <= 2 ^ 53 ->
  loop_iterations x = Some (Z.to_nat k).
Proof.
  destruct x as [s|s| |s m e]; try done.
  - by intros [= <-].
  - destruct s.
    + cbn [integer_value loop_iterations].
      destruct ((0 <=? e) || (Z.pos m mod 2 ^ (- e) =? 0)); [|done].
      intros [= <-] _. pose proof (floorZ_negative m e). f_equal. lia.
    + intros Hint Hk. cbn [loop_iterations].
      rewrite (ceilZ_integer _ _ _ Hint).
      destruct (Z.leb_spec k (2 ^ 53)); [done|lia].
Qed.

(** On the noise levels of the experiments, and every bit length up to
    256, the rounded product has the floor one expects. *)
Example numBitsToFlip_experiment_levels :
  forallb (floor_is_quotient number_0_1 10) (seq 1 256) &&
  forallb (floor_is_quotient number_0_01 100) (seq 1 256) &&
  forallb (floor_is_quotient number_0_05 20) (seq 1 256) = true.
Proof. vm_compute. reflexivity. Qed.

(** The rounding of [Math.random() * length] does not reach the length:
    the largest draw and the smallest one stay inside, for every bit length
    up to 1024. *)
Example extreme_draws_in_range :
  forallb (draw_in_range number_below_1) (seq 1 1024) &&
  forallb (draw_in_range (S754_zero false)) (seq 1 1024) = true.
Proof. vm_compute. reflexivity. Qed.

(** A response with a sign has no binary literal: the conversion back
    throws. *)
Example addNoise_negative_throws :
  addNoiseToResponse (fun _ => number_0_5) (-10) (S754_zero false) = Throws.
Proof. reflexivity. Qed.

(** An infinite noise level never leaves the loop. *)
Example addNoise_infinite_level_diverges :
  addNoiseToResponse (fun _ => number_0_5) 10 (S754_infinity false) = Diverges.
Proof. reflexivity. Qed.

(** On the noise levels of the experiments the count of the
    specification is the quotient one expects, for every bit length up to
    256. *)
Example spec_numBitsToFlip_experiment_levels :
  forallb (spec_floor_is_quotient number_0_1 10) (seq 1 256) &&
  forallb (spec_floor_is_quotient number_0_01 100) (seq 1 256) &&
  forallb (spec_floor_is_quotient number_0_05 20) (seq 1 256) = true.
Proof. vm_compute. reflexivity. Qed.

(** The rounding of the product is part of the count: on 10 digits at 0.3
    the exact product lies below 3 and the binary64 product is 3. *)
Example spec_numBitsToFlip_rounds :
  Qfloor (inject_Z 10 * Number_value number_0_3) = 2 /\
  spec_numBitsToFlip 10 (Number_value number_0_3) = 3 /\
  integer_value (numBitsToFlip 1023 number_0_3) = Some 3.
Proof. repeat split; vm_compute; reflexivity. Qed.

(** ** The function, from its draws *)







End NoiseFacts.

(** * More on the device registry *)
Module RegistryMore.

Import Registry RegistryFacts.

Section More.

Variable verifyProof : Groth16Proof -> PublicInputs -> bool.

#[local] Abbreviation authenticate := (Registry.authenticate verifyProof).
#[local] Abbreviation recordTransaction :=
  (Registry.recordTransaction verifyProof).
#[local] Abbreviation exec := (Registry.exec verifyProof).
#[local] Abbreviation transact := (Registry.transact verifyProof).
#[local] Abbreviation steps := (Registry.steps verifyProof).
#[local] Abbreviation reachable := (Registry.reachable verifyProof).

(** ** registerDevice, case by case *)

Lemma registerDevice_outcome st env id pk hd :
  reachable st -> is_uint256 id ->
  registerDevice env id pk hd st =
  if isDeviceRegistered st id then Revert AlreadyRegistered
  else if id =? 0 then Revert InvalidDeviceId
  else if pk =? 0 then Revert InvalidPubKeyHash
  else Ok true
          (set_totalDevices (totalDevices st + 1)
             (set_device id (new_device env id pk hd) st))
          [DeviceRegistered id (block_timestamp env)].
Proof.
  intros Hreach Hid.
  destruct (isDeviceRegistered st id) eqn:Hregd.
  - destruct (reachable_invariant _ _ Hreach) as (Hp & _).
    unfold isDeviceRegistered in Hregd.
    by rewrite registerDevice_eq, Hp, Hregd.
  - destruct (Z.eqb_spec id 0) as [->|Hne].
    + destruct (reachable_invariant _ _ Hreach) as (Hp & _).
      unfold isDeviceRegistered in Hregd.
      by rewrite registerDevice_eq, Hp, Hregd.
    + destruct (Z.eqb_spec pk 0) as [->|Hpk].
      * destruct (reachable_invariant _ _ Hreach) as (Hp & _).
        unfold isDeviceRegistered in Hregd.
        rewrite registerDevice_eq, Hp, Hregd. cbn.
        by destruct (Z.eqb_spec id 0).
      * by apply (registerDevice_succeeds verifyProof).
Qed.

(** X1: in every reachable state a [registerDevice] call has exactly one
    of four outcomes, tried in this order: "Device already registered" on a
    registered identifier, "Invalid device ID" on the zero identifier,
    "Invalid public key hash" on the zero hash, and success otherwise; it
    never fails on the pause gate or on the checked [totalDevices++]. *)
Theorem X1_registerDevice_outcome st env id pk hd :
  reachable st -> is_uint256 id ->
  registerDevice env id pk hd st =
  if isDeviceRegistered st id then Revert AlreadyRegistered
  else if id =? 0 then Revert InvalidDeviceId
  else if pk =? 0 then Revert InvalidPubKeyHash
  else Ok true
          (set_totalDevices (totalDevices st + 1)
             (set_device id (new_device env id pk hd) st))
          [DeviceRegistered id (block_timestamp env)].
Proof. apply registerDevice_outcome. Qed.

(** ** The counter and the logs *)

(** X2: in every reachable state [totalDevices] is the number of
    identifiers that read as registered, and it is a [uint256]. *)
Theorem X2_totalDevices_counts_registered st :
  reachable st ->
  exists ids : gset Z,
    (forall id, id ∈ ids <-> isDeviceRegistered st id = true) /\
    totalDevices st = Z.of_nat (size ids) /\
    totalDevices st <= MAX_UINT256.
Proof.
  intros Hreach. pose proof (reachable_invariant _ _ Hreach) as Hinv.
  exists (dom (devices st)). split; [|split].
  - intros id. rewrite elem_of_dom. split.
    + intros [d Hd]. by destruct (present_registered _ _ _ Hinv Hd).
    + intros Hregd.
      destruct (registered_present _ _ Hinv Hregd) as (d & Hd & _). by exists d.
  - destruct Hinv as (_ & _ & ->). by rewrite size_dom.
  - destruct Hinv as (_ & Hdev & ->).
    assert (size (devices st) <= Z.to_nat MAX_UINT256)%nat as Hbound.
    { apply size_keys_bounded. intros k [d Hd].
      destruct (Hdev k d Hd) as (_ & _ & Hk). rewrite Z2Nat.id; lia. }
    assert (0 <= MAX_UINT256) by (vm_compute; congruence).
    lia.
Qed.

(** X3: [recordTransaction] reverts with "Device not active" on a device
    that is not active and, on an active one, with "Device ID mismatch" when
    [input[0]] is not the identifier, in that order and before the proof is
    looked at; the storage, the transaction count and the log stay as they
    were. *)
Theorem X3_recordTransaction_gates st env id dh data prf input :
  reachable st ->
  isDeviceActive st id = false \/ input0 input <> id ->
  let call := CallRecordTransaction id dh data prf input in
  recordTransaction env id dh data prf input st =
    Revert (if isDeviceActive st id then BindingMismatch else NotActive) /\
  transact env call st = st /\
  emitted (exec env call st) = [] /\
  getTransactionCount (transact env call st) id = getTransactionCount st id.
Proof.
  intros Hreach Hgate call.
  destruct (reachable_invariant _ _ Hreach) as (Hp & _).
  assert (recordTransaction env id dh data prf input st =
          Revert (if isDeviceActive st id then BindingMismatch else NotActive))
    as Hrev.
  { rewrite recordTransaction_eq, Hp. unfold isDeviceActive in *.
    destruct (isActive (devices_at st id)); cbn; [|done].
    destruct Hgate as [?|Hne]; [done|].
    by destruct (Z.eqb_spec (input0 input) id). }
  unfold Registry.transact, call.
  rewrite exec_recordTransaction, Hrev. by cbn.
Qed.

Lemma effect_transactions_at env st call st' log id :
  effect verifyProof env st call st' log ->
  transactions_at st' id = transactions_at st id \/
  exists dh data prf input,
    call = CallRecordTransaction id dh data prf input /\
    isDeviceActive st id = true /\
    transactions_at st' id =
    transactions_at st id ++ [new_transaction env id dh data].
Proof.
  destruct 1 as [call| | |id' dh data prf input Hact|]; auto.
  unfold transactions_at at 1 3; cbn.
  destruct (decide (id' = id)) as [->|Hne].
  - right. exists dh, data, prf, input. by rewrite lookup_insert_eq.
  - left. by rewrite lookup_insert_ne.
Qed.

(** X4: a device's transaction log only grows at its end: after any
    sequence of transactions the earlier log is a prefix of the later one
    and [getTransactionCount] has not gone down. *)
Theorem X4_transactions_append_only st st' id :
  steps st st' ->
  transactions_at st id `prefix_of` transactions_at st' id /\
  getTransactionCount st id <= getTransactionCount st' id.
Proof.
  intros Hsteps.
  assert (transactions_at st id `prefix_of` transactions_at st' id) as Hpre.
  { induction Hsteps as [|st st' env call Hs IH Henv Hcall]; [done|].
    destruct (effect_transactions_at _ _ _ _ _ id
                (exec_effect verifyProof env call st'))
      as [->|(dh & data & prf & input & _ & _ & ->)]; [done|].
    by apply prefix_app_r. }
  split; [done|]. unfold getTransactionCount.
  apply prefix_length in Hpre. lia.
Qed.

(** X5: every record in a device's transaction log carries that device's
    identifier and a positive timestamp, and a device with a record in its
    log is registered and active. *)
Theorem X5_transaction_records_well_formed st id t :
  reachable st -> t ∈ transactions_at st id ->
  tx_deviceId t = id /\ isDeviceActive st id = true /\
  isDeviceRegistered st id = true /\ 0 < tx_timestamp t.
Proof.
  intros Hreach Ht.
  assert (tx_deviceId t = id /\ isDeviceActive st id = true /\
          0 < tx_timestamp t) as (Hid & Hact & Hts).
  { destruct Hreach as (o & v & st0 & Hinit & Hsteps).
    revert t Ht.
    induction Hsteps as [|st0 st env call Hs IH Henv Hcall]; intros t Ht.
    - unfold constructor, deployment in Hinit. destruct (o =? 0); [done|].
      injection Hinit as <-. unfold transactions_at in Ht. cbn in Ht.
      rewrite lookup_empty in Ht. by apply elem_of_nil in Ht.
    - specialize (IH Hinit).
      destruct (effect_transactions_at _ _ _ _ _ id
                  (exec_effect verifyProof env call st))
        as [Heq|(dh & data & prf & input & _ & Hact & Heq)];
        rewrite Heq in Ht.
      + destruct (IH t Ht) as (? & ? & ?).
        repeat split; [done| |done]. by apply transact_keeps_active.
      + apply elem_of_app in Ht as [Ht|Ht].
        * destruct (IH t Ht) as (? & ? & ?).
          repeat split; [done| |done]. by apply transact_keeps_active.
        * apply list_elem_of_singleton in Ht as ->. cbn.
          repeat split; [by apply transact_keeps_active|].
          destruct Henv as (_ & ? & _). done. }
  repeat split; try done.
  destruct (reachable_invariant _ _ Hreach) as (_ & Hdev & _).
  unfold isDeviceActive, isDeviceRegistered, devices_at in *.
  destruct (devices st !! id) as [d|] eqn:Hd; [|done].
  destruct (Hdev id d Hd) as (? & _). cbn.
  apply negb_true_iff, Z.eqb_neq. lia.
Qed.

(** X6: the record of a registered device (key hash, helper data,
    registration time, owner, flag) is never written again, whatever
    transactions follow. *)
Theorem X6_device_record_frozen st st' id :
  reachable st -> isDeviceRegistered st id = true -> steps st st' ->
  devices_at st' id = devices_at st id.
Proof.
  intros Hreach Hregd Hsteps.
  pose proof (reachable_invariant _ _ Hreach) as Hinv.
  destruct (registered_present _ _ Hinv Hregd) as (d & Hd & _).
  pose proof (present_steps _ _ _ _ _ Hinv Hsteps Hd) as Hd'.
  unfold devices_at. by rewrite Hd, Hd'.
Qed.

#[local] Ltac no_event :=
  cbn; let H := fresh in intros H; by apply elem_of_nil in H.

(** ** Events and reverts *)

(** X7: a call logs at most one event, and each event tells what happened:
    [DeviceRegistered] only a registration of a fresh non-zero identifier,
    [AuthenticationAttempt] only an [authenticate] on an active device bound
    to [input[0]], with the verifier's answer, [TransactionRecorded] only a
    [recordTransaction] whose proof the verifier accepted,
    [OwnershipTransferred] only a [transferOwnership] to a non-zero address
    or a [renounceOwnership], sent by the owner it names as the previous
    one, and [DeviceDeactivated] nothing at all. *)
Theorem X7_events_are_justified st env call e :
  e ∈ emitted (exec env call st) ->
  emitted (exec env call st) = [e] /\
  match e with
  | DeviceRegistered id ts =>
      exists pk hd,
        call = CallRegisterDevice id pk hd /\ ts = block_timestamp env /\
        isDeviceRegistered st id = false /\ id <> 0 /\ pk <> 0
  | AuthenticationAttempt id success =>
      exists prf input,
        call = CallAuthenticate id prf input /\
        isDeviceActive st id = true /\ input0 input = id /\
        success = verifyProof prf input
  | TransactionRecorded id dh ts =>
      exists data prf input,
        call = CallRecordTransaction id dh data prf input /\
        ts = block_timestamp env /\
        isDeviceActive st id = true /\ input0 input = id /\
        verifyProof prf input = true
  | OwnershipTransferred previousOwner newOwner =>
      previousOwner = _owner st /\ msg_sender env = _owner st /\
      (call = CallTransferOwnership newOwner /\ newOwner <> 0 \/
       call = CallRenounceOwnership /\ newOwner = 0)
  | DeviceDeactivated _ _ => False
  end.
Proof.
  destruct call as [id pk hd|id prf input|id dh data prf input
                   |id|id|id| | | | |newOwner|].
  - rewrite exec_registerDevice, registerDevice_eq.
    unfold isDeviceRegistered.
    destruct (_paused st); [no_event|].
    destruct (registeredAt (devices_at st id) =? 0) eqn:Hr; cbn;
      [|no_event].
    destruct (Z.eqb_spec id 0); [no_event|].
    destruct (Z.eqb_spec pk 0); [no_event|].
    destruct (totalDevices st <? MAX_UINT256); cbn;
      [|no_event].
    cbn; intros ->%list_elem_of_singleton. split; [done|]. exists pk, hd. rewrite Hr. by repeat split.
  - rewrite exec_authenticate, authenticate_eq. unfold isDeviceActive.
    destruct (_paused st); [no_event|].
    destruct (isActive (devices_at st id)) eqn:Ha; cbn; [|no_event].
    destruct (Z.eqb_spec (input0 input) id); cbn;
      [|no_event].
    cbn; intros ->%list_elem_of_singleton. split; [done|].
    exists prf, input. rewrite Ha. by repeat split.
  - rewrite exec_recordTransaction, recordTransaction_eq.
    unfold isDeviceActive.
    destruct (_paused st); [no_event|].
    destruct (isActive (devices_at st id)) eqn:Ha; cbn; [|no_event].
    destruct (Z.eqb_spec (input0 input) id); cbn;
      [|no_event].
    destruct (verifyProof prf input) eqn:Hv; cbn;
      [|no_event].
    cbn; intros ->%list_elem_of_singleton. split; [done|].
    exists data, prf, input. rewrite Ha. by repeat split.
  - no_event.
  - no_event.
  - no_event.
  - no_event.
  - no_event.
  - no_event.
  - no_event.
  - unfold Registry.exec, mbind, Tx_bind, mret, Tx_ret.
    rewrite transferOwnership_eq.
    destruct (Z.eqb_spec (msg_sender env) (_owner st)); cbn; [|no_event].
    destruct (Z.eqb_spec newOwner 0); [no_event|].
    cbn; intros ->%list_elem_of_singleton. split; [done|].
    split; [done|]. split; [done|]. by left.
  - unfold Registry.exec, mbind, Tx_bind, mret, Tx_ret.
    rewrite renounceOwnership_eq.
    destruct (Z.eqb_spec (msg_sender env) (_owner st)); cbn; [|no_event].
    intros ->%list_elem_of_singleton. split; [done|].
    split; [done|]. split; [done|]. by right.
Qed.

#[local] Ltac in_reasons :=
  unfold require_reasons; rewrite !elem_of_cons; tauto.

(** X8: in a reachable state a call that reverts does so with one of the
    [require] messages: the pause gate never fires, since nothing can pause
    the registry, and the device counter never overflows. *)
Theorem X8_no_pause_no_overflow st env call reason :
  reachable st -> valid_call call ->
  exec env call st = Revert reason ->
  reason ∈ require_reasons /\
  reason <> EnforcedPause /\ reason <> PanicOverflow.
Proof.
  intros Hreach Hcall Hrev.
  assert (reason ∈ require_reasons) as Hin.
  { pose proof (reachable_invariant _ _ Hreach) as Hinv.
    destruct Hinv as (Hp & _).
    destruct call as [id pk hd|id prf input|id dh data prf input
                     |id|id|id| | | | |newOwner|]; try done.
    - rewrite exec_registerDevice in Hrev.
      destruct Hcall as [Hid _].
      rewrite (registerDevice_outcome _ _ _ _ _ Hreach Hid) in Hrev.
      destruct (isDeviceRegistered st id); [injection Hrev as <-|].
      { in_reasons. }
      destruct (id =? 0); [injection Hrev as <-|].
      { in_reasons. }
      destruct (pk =? 0); [injection Hrev as <-|done].
      in_reasons.
    - rewrite exec_authenticate, authenticate_eq, Hp in Hrev.
      destruct (isActive (devices_at st id)); cbn in Hrev;
        [|injection Hrev as <-; in_reasons].
      destruct (input0 input =? id); cbn in Hrev; [done|].
      injection Hrev as <-. in_reasons.
    - rewrite exec_recordTransaction, recordTransaction_eq, Hp in Hrev.
      destruct (isActive (devices_at st id)); cbn in Hrev;
        [|injection Hrev as <-; in_reasons].
      destruct (input0 input =? id); cbn in Hrev;
        [|injection Hrev as <-; in_reasons].
      destruct (verifyProof prf input); cbn in Hrev; [done|].
      injection Hrev as <-. in_reasons.
    - unfold Registry.exec, mbind, Tx_bind, mret, Tx_ret in Hrev.
      rewrite transferOwnership_eq in Hrev.
      destruct (msg_sender env =? _owner st); cbn in Hrev;
        [|injection Hrev as <-; in_reasons].
      destruct (newOwner =? 0); [|done].
      injection Hrev as <-. in_reasons.
    - unfold Registry.exec, mbind, Tx_bind, mret, Tx_ret in Hrev.
      rewrite renounceOwnership_eq in Hrev.
      destruct (msg_sender env =? _owner st); cbn in Hrev; [done|].
      injection Hrev as <-. in_reasons. }
  split; [done|].
  split; intros ->; revert Hin; unfold require_reasons;
    rewrite !elem_of_cons, elem_of_nil; intros H;
    repeat (destruct H as [H|H]; [discriminate H|]); done.
Qed.

(** X9: what a call may write: the verifier address never changes; the
    device records and [totalDevices] change only in a [registerDevice]
    call, the transaction logs only in a [recordTransaction] call; and
    [authenticate] and the views leave the whole storage as it was, in any
    state and whatever they answer. *)
Theorem X9_storage_frame st env call :
  let st' := transact env call st in
  verifier st' = verifier st /\
  (devices st' <> devices st \/ totalDevices st' <> totalDevices st ->
   exists id pk hd, call = CallRegisterDevice id pk hd) /\
  (transactions st' <> transactions st ->
   exists id dh data prf input,
     call = CallRecordTransaction id dh data prf input) /\
  (read_only call = true -> st' = st).
Proof.
  intros st'. split; [|split; [|split]].
  - unfold st'. by destruct (exec_effect verifyProof env call st).
  - unfold st'.
    destruct (exec_effect verifyProof env call st)
      as [call|id pk hd _ _ _ _| | |]; cbn; try (by intros [?|?]).
    intros _. by exists id, pk, hd.
  - unfold st'.
    destruct (exec_effect verifyProof env call st)
      as [call| | |id dh data prf input _|]; cbn; try done.
    intros _. by exists id, dh, data, prf, input.
  - unfold st', Registry.transact.
    destruct call as [id pk hd|id prf input|id dh data prf input
                     |id|id|id| | | | |newOwner|]; try done.
    intros _. rewrite exec_authenticate, authenticate_eq.
    destruct (_paused st); [done|].
    destruct (isActive (devices_at st id)); [|done].
    by destruct (input0 input =? id).
Qed.


(** ** The guarded registration of the tests *)

(** X24: the tests' "register if not already registered" cannot revert on
    a non-zero identifier and key hash: it leaves a registered device alone
    and registers an unregistered one, and either way the device is
    registered and active afterwards. *)
Theorem X24_register_if_needed st env id pk hd :
  reachable st -> valid_env env -> is_uint256 id -> id <> 0 -> pk <> 0 ->
  exists st' log,
    register_if_needed env id pk hd st = Ok true st' log /\
    isDeviceRegistered st' id = true /\
    isDeviceActive st' id = true /\
    (isDeviceRegistered st id = true -> st' = st /\ log = []).
Proof.
  intros Hreach Henv Hid Hne Hpk.
  pose proof (reachable_invariant _ _ Hreach) as Hinv.
  unfold register_if_needed.
  destruct (isDeviceRegistered st id) eqn:Hregd; cbn [negb].
  - exists st, []. split; [done|]. split; [done|]. split; [|done].
    destruct (registered_present _ _ Hinv Hregd) as (d & Hd & _).
    by destruct (present_registered _ _ _ Hinv Hd).
  - rewrite (registerDevice_outcome _ _ _ _ _ Hreach Hid), Hregd.
    destruct (Z.eqb_spec id 0); [done|]. destruct (Z.eqb_spec pk 0); [done|].
    eexists _, _. split; [reflexivity|].
    unfold isDeviceRegistered, isDeviceActive, devices_at. cbn.
    rewrite lookup_insert_eq. cbn. split; [|done].
    destruct Henv as (_ & Hts & _).
    apply negb_true_iff, Z.eqb_neq. lia.
Qed.

End More.

(** ** The theorems at the example deployment *)

Lemma reachable_registered1 verifyProof :
  Registry.reachable verifyProof (registered1 verifyProof).
Proof.
  exists 1, 2, deployed. split; [reflexivity|].
  apply steps_call; [apply steps_refl| |]; repeat split; vm_compute; congruence.
Qed.

Lemma steps_recorded1 verifyProof :
  Registry.steps verifyProof (registered1 verifyProof) (recorded1 verifyProof).
Proof.
  apply steps_call; [apply steps_refl| |]; repeat split; vm_compute; congruence.
Qed.

Lemma X1_witness :
  registerDevice env2 0 77 [] (registered1 accept_all) =
  Revert InvalidDeviceId.
Proof.
  assert (is_uint256 0) as Hid by (split; vm_compute; congruence).
  exact (X1_registerDevice_outcome accept_all (registered1 accept_all)
           env2 0 77 [] (reachable_registered1 accept_all) Hid).
Defined.

Lemma X2_witness :
  exists ids : gset Z,
    (forall id, id ∈ ids <->
                isDeviceRegistered (registered1 accept_all) id = true) /\
    totalDevices (registered1 accept_all) = Z.of_nat (size ids) /\
    totalDevices (registered1 accept_all) <= MAX_UINT256.
Proof.
  exact (X2_totalDevices_counts_registered accept_all
           (registered1 accept_all) (reachable_registered1 accept_all)).
Defined.

Lemma X3_witness :
  Registry.recordTransaction accept_all env2 device1 7 [] proof1 inputs_other
    (registered1 accept_all) = Revert BindingMismatch.
Proof.
  assert (input0 inputs_other <> device1) as Hne by (vm_compute; discriminate).
  exact (proj1 (X3_recordTransaction_gates accept_all
                  (registered1 accept_all) env2 device1 7 [] proof1
                  inputs_other (reachable_registered1 accept_all)
                  (or_intror Hne))).
Defined.

Lemma X4_witness :
  getTransactionCount (registered1 accept_all) device1 <=
  getTransactionCount (recorded1 accept_all) device1.
Proof.
  exact (proj2 (X4_transactions_append_only accept_all
                  (registered1 accept_all) (recorded1 accept_all) device1
                  (steps_recorded1 accept_all))).
Defined.

Lemma X5_witness :
  tx_deviceId (new_transaction env2 device1 7 []) = device1 /\
  isDeviceActive (recorded1 accept_all) device1 = true /\
  isDeviceRegistered (recorded1 accept_all) device1 = true /\
  0 < tx_timestamp (new_transaction env2 device1 7 []).
Proof.
  assert (Registry.reachable accept_all (recorded1 accept_all)) as Hreach.
  { eapply reachable_steps;
      [apply reachable_registered1|apply steps_recorded1]. }
  assert (new_transaction env2 device1 7 [] ∈
          transactions_at (recorded1 accept_all) device1) as Hin.
  { assert (transactions_at (recorded1 accept_all) device1 =
            [new_transaction env2 device1 7 []]) as ->
      by (vm_compute; reflexivity).
    by apply list_elem_of_singleton. }
  exact (X5_transaction_records_well_formed accept_all
           (recorded1 accept_all) device1 _ Hreach Hin).
Defined.

Lemma X6_witness :
  devices_at (recorded1 accept_all) device1 =
  devices_at (registered1 accept_all) device1.
Proof.
  assert (isDeviceRegistered (registered1 accept_all) device1 = true) as Hregd
    by (vm_compute; reflexivity).
  exact (X6_device_record_frozen accept_all (registered1 accept_all)
           (recorded1 accept_all) device1
           (reachable_registered1 accept_all) Hregd
           (steps_recorded1 accept_all)).
Defined.

Lemma X7_witness :
  exists data prf input,
    record1 = CallRecordTransaction device1 7 data prf input /\
    1700000012 = block_timestamp env2 /\
    isDeviceActive (registered1 accept_all) device1 = true /\
    input0 input = device1 /\
    accept_all prf input = true.
Proof.
  assert (TransactionRecorded device1 7 1700000012 ∈
          emitted (Registry.exec accept_all env2 record1
                     (registered1 accept_all))) as Hin.
  { assert (emitted (Registry.exec accept_all env2 record1
                       (registered1 accept_all)) =
            [TransactionRecorded device1 7 1700000012]) as ->
      by (vm_compute; reflexivity).
    by apply list_elem_of_singleton. }
  exact (proj2 (X7_events_are_justified accept_all (registered1 accept_all)
                  env2 record1 _ Hin)).
Defined.

Lemma X8_witness :
  ProofRejected ∈ require_reasons /\
  ProofRejected <> EnforcedPause /\ ProofRejected <> PanicOverflow.
Proof.
  assert (valid_call record1) as Hcall
    by (repeat split; vm_compute; congruence).
  assert (Registry.exec reject_all env2 record1 (registered1 reject_all) =
          Revert ProofRejected) as Hrev by (vm_compute; reflexivity).
  exact (X8_no_pause_no_overflow reject_all (registered1 reject_all) env2
           record1 ProofRejected (reachable_registered1 reject_all)
           Hcall Hrev).
Defined.

Lemma X24_witness :
  exists st' log,
    register_if_needed env2 device1 99 [] (registered1 accept_all) =
      Ok true st' log /\
    isDeviceRegistered st' device1 = true /\
    isDeviceActive st' device1 = true /\
    (isDeviceRegistered (registered1 accept_all) device1 = true ->
     st' = registered1 accept_all /\ log = []).
Proof.
  assert (valid_env env2) as Henv by (repeat split; vm_compute; congruence).
  assert (is_uint256 device1) as Hid by (split; vm_compute; congruence).
  assert (device1 <> 0) as Hne by (vm_compute; discriminate).
  assert (99 <> 0) as Hpk by discriminate.
  exact (X24_register_if_needed accept_all (registered1 accept_all) env2
           device1 99 [] (reachable_registered1 accept_all)
           Henv Hid Hne Hpk).
Defined.

End RegistryMore.

(** * More on the simulator and the circuit *)
Module CommitmentMore.

Import Commitment CommitmentFacts.

Section More.

Variable sha256 : string -> N.
Variable Poseidon : list Z -> Z.

#[local] Abbreviation generateResponse := (Commitment.generateResponse sha256).
#[local] Abbreviation evolves := (Commitment.evolves sha256 Poseidon).
#[local] Abbreviation initialize := (Commitment.initialize Poseidon).
#[local] Abbreviation DeviceAuth := (Commitment.DeviceAuth Poseidon).
#[local] Abbreviation computedHash := (Commitment.computedHash Poseidon).

(** ** Challenges and responses *)

Lemma generateChallenge_range randomBytes :
  0 <= randomBytes ->
  0 <= generateChallenge randomBytes < maxField /\
  (randomBytes < 2 ^ 248 -> generateChallenge randomBytes = randomBytes).
Proof.
  intros Hrb. unfold generateChallenge.
  pose proof maxField_pos as Hp.
  rewrite Z.rem_mod_nonneg by lia. split.
  - apply Z.mod_pos_bound. lia.
  - intros Hlt. apply Z.mod_small.
    assert (2 ^ 248 < maxField) by reflexivity. lia.
Qed.

(** X10: on the number of any run of random bytes [generateChallenge]
    returns a field element, and on 31 bytes, as the code draws them, the
    reduction changes nothing: the challenge is the drawn number. *)
Theorem X10_generateChallenge_range randomBytes :
  0 <= randomBytes ->
  0 <= generateChallenge randomBytes < maxField /\
  (randomBytes < 2 ^ 248 -> generateChallenge randomBytes = randomBytes).
Proof. apply generateChallenge_range. Qed.

Lemma keyed_response_range seed deviceId challenge :
  0 <= keyed_response sha256 seed deviceId challenge < maxField.
Proof.
  unfold keyed_response. pose proof maxField_pos.
  rewrite Z.rem_mod_nonneg by lia. apply Z.mod_pos_bound. lia.
Qed.

Lemma evolves_seed this this' : evolves this this' -> seed this' = seed this.
Proof.
  induction 1 as [|this' _ IH|this' d c _ IH]; [done|done|].
  pose proof (generateResponse_memoised sha256 this' d c) as H.
  destruct (generateResponse this' d c) as [r this'']. cbn.
  destruct H as (_ & _ & ->). done.
Qed.

Lemma evolves_memo_consistent this this' :
  memo_consistent sha256 this -> evolves this this' ->
  memo_consistent sha256 this'.
Proof.
  intros Hmemo. induction 1 as [|this' _ IH|this' d c _ IH]; [done|done|].
  by apply memo_consistent_generateResponse.
Qed.

Lemma response_is_keyed_hash seed this deviceId challenge :
  evolves (new_PUFSimulator seed) this ->
  (generateResponse this deviceId challenge).1 =
    keyed_response sha256 seed deviceId challenge /\
  0 <= (generateResponse this deviceId challenge).1 < maxField.
Proof.
  intros Hev.
  assert ((generateResponse this deviceId challenge).1 =
          keyed_response sha256 seed deviceId challenge) as Heq.
  { assert (memo_consistent sha256 this) as Hmemo.
    { apply (evolves_memo_consistent (new_PUFSimulator seed)); [|done].
      intros key response. cbn. by rewrite lookup_empty. }
    pose proof (evolves_seed _ _ Hev) as Hseed. cbn in Hseed.
    unfold Commitment.generateResponse, keyed_response.
    destruct (responseMap this !! response_key deviceId challenge)
      as [r|] eqn:Hhit; cbn.
    - rewrite (Hmemo _ _ Hhit). by rewrite Hseed.
    - by rewrite Hseed. }
  split; [done|]. rewrite Heq. apply keyed_response_range.
Qed.

(** X11: a simulator built with a seed answers, at any later time and
    whatever it has memoised, with the keyed hash of seed, identifier and
    challenge reduced into the field: the response lies in [0, maxField)
    and depends on nothing but these three. *)
Theorem X11_response_is_keyed_hash seed this deviceId challenge :
  evolves (new_PUFSimulator seed) this ->
  (generateResponse this deviceId challenge).1 =
    keyed_response sha256 seed deviceId challenge /\
  0 <= (generateResponse this deviceId challenge).1 < maxField.
Proof. apply response_is_keyed_hash. Qed.

Lemma evolves_memo_grows this this' key response :
  evolves this this' ->
  responseMap this !! key = Some response ->
  responseMap this' !! key = Some response.
Proof.
  intros Hev Hkey.
  induction Hev as [|this' _ IH|this' d c _ IH]; [done|done|].
  unfold Commitment.generateResponse.
  destruct (responseMap this' !! response_key d c) eqn:Hhit; [done|].
  cbn. rewrite lookup_insert_ne; [done|]. intros <-. congruence.
Qed.

(** X12: once a simulator has answered a challenge, every later call for
    the same identifier and challenge, after any other calls, returns the
    same response and leaves the simulator as it is; this needs nothing of
    the memo it started from. *)
Theorem X12_response_is_stable this deviceId challenge this' :
  evolves (generateResponse this deviceId challenge).2 this' ->
  generateResponse this' deviceId challenge =
  ((generateResponse this deviceId challenge).1, this').
Proof.
  intros Hev. apply generateResponse_again.
  eapply evolves_memo_grows; [exact Hev|].
  pose proof (generateResponse_memoised sha256 this deviceId challenge) as H.
  destruct (generateResponse this deviceId challenge) as [r this1].
  by destruct H.
Qed.

Lemma pretty_N_go_dashless x s : dashless s -> dashless (pretty_N_go x s).
Proof.
  revert s. induction (N.lt_wf_0 x) as [x _ IH]; intros s Hs.
  assert (x = 0 \/ 0 < x)%N as [->|Hpos] by lia.
  - by rewrite pretty_N_go_0.
  - rewrite pretty_N_go_step by done. apply IH.
    + by apply N.div_lt.
    + split; [|done]. unfold pretty_N_char. by repeat case_match.
Qed.

Lemma pretty_nonneg_dashless (z : Z) : 0 <= z -> dashless (pretty z).
Proof.
  destruct z as [|p|p]; [| |lia]; intros _.
  - cbn. by split.
  - unfold pretty, pretty_Z, pretty, pretty_positive, pretty, pretty_N.
    case_decide; [done|]. by apply pretty_N_go_dashless.
Qed.

(** ** The memo key *)

Lemma append_nil_l s : "" +:+ s = s.
Proof. reflexivity. Qed.

Lemma append_cons_l c s t : String c s +:+ t = String c (s +:+ t).
Proof. reflexivity. Qed.

Lemma split_at_first_dash s1 s2 t1 t2 :
  dashless s1 -> dashless s2 ->
  s1 +:+ "-" +:+ t1 = s2 +:+ "-" +:+ t2 -> s1 = s2 /\ t1 = t2.
Proof.
  revert s2. induction s1 as [|c1 s1 IH]; intros [|c2 s2];
    repeat (rewrite append_nil_l || rewrite append_cons_l); cbn [dashless].
  - by intros _ _ [= ->].
  - intros _ [Hc2 _] [= <- _]. done.
  - intros [Hc1 _] _ [= -> _]. done.
  - intros [_ H1] [_ H2] [= -> Heq].
    destruct (IH s2 H1 H2 Heq) as [-> ->]. done.
Qed.

(** X13: the memo key tells pairs apart: two pairs of a non-negative
    identifier and a challenge with the same key are the same pair. *)
Theorem X13_response_key_injective deviceId challenge deviceId' challenge' :
  0 <= deviceId -> 0 <= deviceId' ->
  response_key deviceId challenge = response_key deviceId' challenge' ->
  deviceId = deviceId' /\ challenge = challenge'.
Proof.
  intros Hd Hd' Hkey. unfold response_key in Hkey.
  apply split_at_first_dash in Hkey as [Hl Hr];
    [|by apply pretty_nonneg_dashless..].
  split; by apply (inj pretty).
Qed.

(** ** From the simulator to the circuit *)

Lemma generateCircuitInput_spec this deviceId randomBytes :
  0 <= deviceId < maxField -> 0 <= randomBytes < 2 ^ 248 ->
  let response :=
    (generateResponse (initialize this) deviceId randomBytes).1 in
  let input := {| in_deviceId := deviceId;
                  in_challenge := randomBytes;
                  in_response := response;
                  in_expectedHash := computedHash response randomBytes |} in
  generateCircuitInput sha256 (initialize this) deviceId randomBytes =
    Some (input, (generateResponse (initialize this) deviceId randomBytes).2) /\
  DeviceAuth deviceId randomBytes (computedHash response randomBytes)
             response = true /\
  publicSignals input =
    [deviceId; randomBytes; computedHash response randomBytes].
Proof.
  intros Hd Hrb response input.
  destruct (generateChallenge_range randomBytes) as (_ & Hch); [lia|].
  specialize (Hch ltac:(lia)).
  pose proof (generateResponse_stable sha256 (initialize this)
                deviceId randomBytes) as Hstable.
  pose proof (generateResponse_memoised sha256 (initialize this)
                deviceId randomBytes) as Hmemo.
  unfold generateCircuitInput, input, response. rewrite Hch.
  destruct (generateResponse (initialize this) deviceId randomBytes)
    as [r this1] eqn:Hgen.
  destruct Hmemo as (_ & Hpos & _).
  unfold generateExpectedHash. rewrite Hpos. cbn [poseidon initialize].
  rewrite Hstable. cbn [mbind option_bind fst snd].
  change (buildPoseidon Poseidon [r; randomBytes])
    with (computedHash r randomBytes).
  split; [done|]. split.
  - apply DeviceAuth_iff. apply (computedHash_canonical Poseidon r randomBytes).
  - unfold publicSignals.
    cbn [in_deviceId in_challenge in_response in_expectedHash].
    rewrite (computedHash_canonical Poseidon r randomBytes).
    pose proof maxField_pos.
    assert (2 ^ 248 < maxField) by reflexivity.
    unfold Fe at 1 2. rewrite !Z.mod_small by lia. done.
Qed.

(** X14: on an identifier below the field order and 31 random bytes,
    [generateCircuitInput] of an initialised simulator succeeds; its
    challenge is the drawn number, its response the keyed hash, its
    expected hash the circuit's hash of the two; the four values satisfy
    the constraints of [DeviceAuth], and the public signals are the
    identifier, the challenge and the expected hash, unreduced and in that
    order. *)
Theorem X14_circuit_input_satisfies_circuit this deviceId randomBytes :
  0 <= deviceId < maxField -> 0 <= randomBytes < 2 ^ 248 ->
  evolves (new_PUFSimulator (seed this)) this ->
  exists input this',
    generateCircuitInput sha256 (initialize this) deviceId randomBytes =
      Some (input, this') /\
    in_deviceId input = deviceId /\
    in_challenge input = randomBytes /\
    in_response input =
      keyed_response sha256 (seed this) deviceId randomBytes /\
    in_expectedHash input =
      computedHash (in_response input) randomBytes /\
    DeviceAuth (in_deviceId input) (in_challenge input)
               (in_expectedHash input) (in_response input) = true /\
    publicSignals input = [deviceId; randomBytes; in_expectedHash input].
Proof.
  intros Hd Hrb Hev.
  destruct (generateCircuitInput_spec this deviceId randomBytes Hd Hrb)
    as (Hgen & Hsat & Hsig).
  assert (evolves (new_PUFSimulator (seed this)) (initialize this)) as Hev'
    by (by apply evolves_initialize).
  destruct (response_is_keyed_hash (seed this) (initialize this)
              deviceId randomBytes Hev') as (Hresp & _).
  eexists _, _. split; [exact Hgen|].
  cbn [in_deviceId in_challenge in_response in_expectedHash].
  by repeat split.
Qed.

(** X15: the circuit accepts exactly when the expected hash is the hash
    of response and challenge; the device identifier is a public input that
    no constraint ties to the others, so the verdict is the same for every
    identifier, and the three range checks reject no field element. *)
Theorem X15_circuit_ignores_deviceId
    deviceId deviceId' challenge expectedHash response :
  DeviceAuth deviceId challenge expectedHash response =
  DeviceAuth deviceId' challenge expectedHash response /\
  (DeviceAuth deviceId challenge expectedHash response = true <->
   Fe expectedHash = computedHash response challenge).
Proof.
  split; [|apply DeviceAuth_iff].
  unfold Commitment.DeviceAuth. by rewrite !Num2Bits_254_Fe.
Qed.

End More.

(** ** The theorems on stand-in hash functions *)

Lemma X10_witness :
  0 <= generateChallenge 5 < maxField /\
  (5 < 2 ^ 248 -> generateChallenge 5 = 5).
Proof.
  assert (0 <= 5) as H by (vm_compute; congruence).
  exact (X10_generateChallenge_range 5 H).
Defined.

Lemma X11_witness :
  (Commitment.generateResponse toy_sha256 (new_PUFSimulator "seed") 12 34).1 =
  keyed_response toy_sha256 "seed" 12 34.
Proof.
  exact (proj1 (X11_response_is_keyed_hash toy_sha256 toy_Poseidon "seed"
                  (new_PUFSimulator "seed") 12 34
                  (evolves_refl _ _ _))).
Defined.

Lemma X12_witness :
  Commitment.generateResponse toy_sha256
    (Commitment.generateResponse toy_sha256 (new_PUFSimulator "seed") 12 34).2
    12 34 =
  ((Commitment.generateResponse toy_sha256 (new_PUFSimulator "seed") 12 34).1,
   (Commitment.generateResponse toy_sha256 (new_PUFSimulator "seed") 12 34).2).
Proof.
  exact (X12_response_is_stable toy_sha256 toy_Poseidon
           (new_PUFSimulator "seed") 12 34 _ (evolves_refl _ _ _)).
Defined.

Lemma X13_witness :
  response_key 12 34 = "12-34" /\ (12 = 12 /\ 34 = 34).
Proof.
  assert (0 <= 12) as H by (vm_compute; congruence).
  split; [reflexivity|].
  exact (X13_response_key_injective 12 34 12 34 H H eq_refl).
Defined.

Lemma X14_witness :
  exists input this',
    generateCircuitInput toy_sha256
      (Commitment.initialize toy_Poseidon (new_PUFSimulator "seed")) 12 34 =
      Some (input, this') /\
    in_deviceId input = 12 /\
    in_challenge input = 34 /\
    in_response input = keyed_response toy_sha256 "seed" 12 34 /\
    in_expectedHash input =
      Commitment.computedHash toy_Poseidon (in_response input) 34 /\
    Commitment.DeviceAuth toy_Poseidon (in_deviceId input)
      (in_challenge input) (in_expectedHash input) (in_response input) =
      true /\
    publicSignals input = [12; 34; in_expectedHash input].
Proof.
  assert (0 <= 12 < maxField) as Hd by (split; vm_compute; congruence).
  assert (0 <= 34 < 2 ^ 248) as Hrb by (split; vm_compute; congruence).
  exact (X14_circuit_input_satisfies_circuit toy_sha256 toy_Poseidon
           (new_PUFSimulator "seed") 12 34 Hd Hrb (evolves_refl _ _ _)).
Defined.

End CommitmentMore.

(** * More on the proof cache *)
Module ProofCacheMore.

Import ProofCache ProofCacheFacts.

Section More.

Context {Proof PublicSignals : Type}.

#[local] Abbreviation Cache := (ProofCache.ProofCache Proof PublicSignals).

(** X16: an entry written by [set] is what [get] returns for the same
    pair as long as its age is within the time-out, and that read changes
    nothing; the write leaves the reads of every other key as they were,
    and it replaces an earlier entry of the pair without a trace. *)
Theorem X16_set_then_get
    now stored_at (this : Cache) deviceId challenge proof publicSignals :
  now - stored_at <= timeout this ->
  let entry := {| proof := proof; publicSignals := publicSignals;
                  timestamp := stored_at |} in
  let this' := set stored_at this deviceId challenge proof publicSignals in
  get now this' deviceId challenge = (Some entry, this') /\
  (forall deviceId' challenge',
     getKey deviceId' challenge' <> getKey deviceId challenge ->
     (get now this' deviceId' challenge').1 =
     (get now this deviceId' challenge').1) /\
  (forall earlier proof0 publicSignals0,
     set stored_at (set earlier this deviceId challenge proof0 publicSignals0)
       deviceId challenge proof publicSignals = this').
Proof.
  intros Hage entry this'. split; [|split].
  - apply get_fresh; [|done]. cbn. apply lookup_insert_eq.
  - intros deviceId' challenge' Hne. unfold get, this'. cbn.
    rewrite lookup_insert_ne by done.
    destruct (cache this !! getKey deviceId' challenge') as [e|]; [|done].
    by destruct (now - timestamp e >? timeout this).
  - intros earlier proof0 publicSignals0. unfold this', set. cbn.
    by rewrite insert_insert_eq.
Qed.

Lemma append_assoc (s t u : string) : (s +:+ t) +:+ u = s +:+ t +:+ u.
Proof.
  induction s as [|ch s IH]; [done|].
  cbv [append]. fold append. by f_equal.
Qed.

(** X17: the cache key does not tell pairs apart: a dash may sit on either
    side of the separator, so an entry stored for one pair is returned for
    another pair with the same key. *)
Theorem X17_getKey_collides
    now stored_at (this : Cache) a b c proof publicSignals :
  getKey (a +:+ "-" +:+ b) c = getKey a (b +:+ "-" +:+ c) /\
  (now - stored_at <= timeout this ->
   (get now (set stored_at this (a +:+ "-" +:+ b) c proof publicSignals)
      a (b +:+ "-" +:+ c)).1 =
   Some {| proof := proof; publicSignals := publicSignals;
           timestamp := stored_at |}).
Proof.
  assert (getKey (a +:+ "-" +:+ b) c = getKey a (b +:+ "-" +:+ c)) as Hkey.
  { unfold getKey. by rewrite !append_assoc. }
  split; [done|]. intros Hage.
  rewrite (get_fresh now _ _ _
             {| proof := proof; publicSignals := publicSignals;
                timestamp := stored_at |}); [done| |done].
  cbn. rewrite <- Hkey. apply lookup_insert_eq.
Qed.

End More.

Lemma X16_witness :
  get 400000 (set 100000 (constructor default_timeoutMs) "0xab" "0xcd"
                "pi" ["1"; "2"; "3"]) "0xab" "0xcd" =
  (Some {| proof := "pi"; publicSignals := ["1"; "2"; "3"];
           timestamp := 100000 |},
   set 100000 (constructor default_timeoutMs) "0xab" "0xcd"
     "pi" ["1"; "2"; "3"]).
Proof.
  assert (400000 - 100000 <=
          timeout (constructor (Proof := string)
                     (PublicSignals := list string) default_timeoutMs))
    as Hage by (vm_compute; congruence).
  exact (proj1 (X16_set_then_get 400000 100000
                  (constructor default_timeoutMs) "0xab" "0xcd"
                  "pi"%string ["1"; "2"; "3"]%string Hage)).
Defined.

Lemma X17_witness :
  (get 400000 (set 100000 (constructor default_timeoutMs) "a-b" "c"
                 "pi" ["1"; "2"; "3"]) "a" "b-c").1 =
  Some {| proof := "pi"; publicSignals := ["1"; "2"; "3"];
          timestamp := 100000 |}.
Proof.
  assert (400000 - 100000 <=
          timeout (constructor (Proof := string)
                     (PublicSignals := list string) default_timeoutMs))
    as Hage by (vm_compute; congruence).
  exact (proj2 (X17_getKey_collides 400000 100000
                  (constructor default_timeoutMs) "a" "b" "c"
                  "pi"%string ["1"; "2"; "3"]%string) Hage).
Defined.

End ProofCacheMore.

(** * More on the noise injector *)
Module NoiseMore.

Import Noise NoiseFacts.

(** ** Binary digits, there and back *)

Lemma fold_parse_None ds :
  fold_left (fun acc c =>
               match acc, binary_digit c with
               | Some v, Some d => Some (2 * v + d)
               | _, _ => None
               end) ds None = None.
Proof. induction ds as [|c ds IH]; [done|]. exact IH. Qed.

Lemma length_digits_of_positive p :
  length (digits_of_positive p) = Pos.to_nat (Pos.size p).
Proof.
  induction p as [p IH|p IH|]; cbn [digits_of_positive Pos.size]; [| |done].
  all: rewrite length_app, IH; cbn [length]; lia.
Qed.

(** X18: writing a non-negative BigInt in binary and reading the digits
    back gives the number again, while the digits of a negative one, with
    their sign, are no binary literal and the read throws; and the number
    of digits of a positive number is its binary logarithm plus one. *)
Theorem X18_binary_round_trip r :
  (0 <= r -> BigInt_0b (toString2 r) = Some r) /\
  (r < 0 -> BigInt_0b (toString2 r) = None) /\
  (0 < r -> Z.of_nat (bitLength r) = Z.log2 r + 1).
Proof.
  split; [|split].
  - intros Hr. destruct (toString2_nonneg r Hr) as (Hne & Hbin & Hval).
    by rewrite BigInt_0b_digits, Hval.
  - destruct r as [|p|p]; [lia..|]. intros _.
    unfold toString2, BigInt_0b. cbn [fold_left].
    change (binary_digit "-") with (@None Z). apply fold_parse_None.
  - destruct r as [|p|p]; [lia| |lia]. intros _.
    unfold bitLength, toString2. rewrite length_digits_of_positive.
    destruct p as [p|p|]; cbn [Pos.size Z.log2]; lia.
Qed.

Lemma addNoise_digits random r noiseLevel k :
  0 <= r ->
  Z.of_nat (bitLength r) <= max_array_index ->
  integer_value (numBitsToFlip r noiseLevel) = Some k ->
  k <= 2 ^ 53 ->
  draws_in_range random (Z.to_nat k) (bitLength r) ->
  exists ds,
    Forall is_binary ds /\ length ds = bitLength r /\
    addNoiseToResponse random r noiseLevel = Returns (digits_value ds).
Proof.
  intros Hr Hmax Hk Hbound Hdraws.
  destruct (toString2_nonneg r Hr) as (Hne & Hbin & Hval).
  destruct (fold_flip_digits
              (drawn_indices random (Z.to_nat k) (bitLength r))
              (toString2 r) Hbin) as (Hbin' & Hlen & _).
  { unfold drawn_indices. apply Forall_fmap, Forall_forall.
    intros i Hi. apply elem_of_seq in Hi.
    destruct (Hdraws i ltac:(lia)) as (j & Hdraw & Hj).
    unfold compose. rewrite Hdraw. exact Hj. }
  eexists. split; [exact Hbin'|]. split; [exact Hlen|].
  unfold addNoiseToResponse. rewrite length_fmap.
  change (Math_floor (mul (Number_of_nat (length (toString2 r))) noiseLevel))
    with (numBitsToFlip r noiseLevel).
  rewrite (loop_iterations_integer _ k) by done.
  rewrite flip_loop_in_range; [|done|done|exact Hdraws].
  rewrite join_Some. unfold drawn_indices, bitLength in *.
  rewrite BigInt_0b_digits; [done| |done].
  intros Hnil. rewrite Hnil in Hlen. by destruct (toString2 r).
Qed.

(** X19: noise never lengthens a response: the result is non-negative and
    has at most as many binary digits as the response had. *)
Theorem X19_noise_keeps_bit_length random r noiseLevel k :
  0 <= r ->
  Z.of_nat (bitLength r) <= max_array_index ->
  integer_value (numBitsToFlip r noiseLevel) = Some k ->
  k <= 2 ^ 53 ->
  draws_in_range random (Z.to_nat k) (bitLength r) ->
  exists v,
    addNoiseToResponse random r noiseLevel = Returns v /\
    0 <= v < 2 ^ Z.of_nat (bitLength r).
Proof.
  intros Hr Hmax Hk Hbound Hdraws.
  destruct (addNoise_digits random r noiseLevel k Hr Hmax Hk Hbound Hdraws)
    as (ds & Hbin & Hlen & Hret).
  exists (digits_value ds). split; [done|].
  rewrite <- Hlen. by apply digits_value_range.
Qed.

Lemma binary_round_aux_signed s m e l :
  signed s (binary_round_aux prec emax s m e l).
Proof.
  unfold binary_round_aux.
  destruct (shr_fexp prec emax m e l) as [mrs' e'].
  destruct (shr_fexp prec emax _ e' loc_Exact) as [mrs'' e''].
  destruct (shr_m mrs''); [by cbn| |by cbn].
  destruct (e'' <=? emax - prec); by cbn.
Qed.

Lemma binary_normalize_signed s m e :
  (s = true -> m <= 0) -> (s = false -> 0 <= m) ->
  signed s (binary_normalize prec emax m e s).
Proof.
  intros Hneg Hpos. unfold binary_normalize, binary_round.
  destruct m as [|p|p]; [by cbn| |].
  - destruct s; [specialize (Hneg eq_refl); lia|].
    destruct (shl_align _ _ _). apply binary_round_aux_signed.
  - destruct s; [|specialize (Hpos eq_refl); lia].
    destruct (shl_align _ _ _). apply binary_round_aux_signed.
Qed.

Lemma Number_of_nat_signed n : signed false (Number_of_nat n).
Proof. apply binary_normalize_signed; [done|lia]. Qed.

Lemma signed_true_no_flip x : signed true x -> no_flip_level x.
Proof. destruct x as [s|s| |s m e]; try done; by intros ->. Qed.

Lemma mul_no_flip x noiseLevel :
  signed false x -> no_flip_level noiseLevel ->
  no_flip_level (mul x noiseLevel).
Proof.
  unfold mul.
  destruct x as [sx|sx| |sx mx ex], noiseLevel as [sy|sy| |sy my ey];
    cbn; try done; try (intros -> ?; by destruct sy).
  intros -> ?. destruct sy; [|done].
  apply signed_true_no_flip, binary_round_aux_signed.
Qed.

Lemma Math_floor_no_flip x : no_flip_level x -> no_flip_level (Math_floor x).
Proof.
  destruct x as [s|s| |s m e]; try done. destruct s; [|done]. intros _.
  apply signed_true_no_flip, binary_normalize_signed; [|done].
  intros _. apply floorZ_negative.
Qed.

Lemma loop_iterations_no_flip x :
  no_flip_level x -> loop_iterations x = Some 0%nat.
Proof. destruct x as [s|s| |s m e]; try done; by destruct s. Qed.

(** X20: on a noise level that is a NaN, a zero or negative, infinite
    included, the loop body never runs and a non-negative response comes
    back as it is. *)
Theorem X20_no_flip_levels random r noiseLevel :
  0 <= r -> no_flip_level noiseLevel ->
  addNoiseToResponse random r noiseLevel = Returns r.
Proof.
  intros Hr Hlevel.
  destruct (toString2_nonneg r Hr) as (Hne & Hbin & Hval).
  unfold addNoiseToResponse.
  rewrite loop_iterations_no_flip.
  - cbn [flip_loop]. by rewrite join_Some, BigInt_0b_digits, Hval.
  - apply Math_floor_no_flip, mul_no_flip; [|done].
    apply Number_of_nat_signed.
Qed.


Lemma X19_witness :
  exists v,
    addNoiseToResponse (fun _ => number_0_5) 10 number_0_5 = Returns v /\
    0 <= v < 2 ^ Z.of_nat (bitLength 10).
Proof.
  assert (draws_in_range (fun _ => number_0_5) (Z.to_nat 2) (bitLength 10))
    as Hdraws.
  { intros i _. exists 2. split; [vm_compute; reflexivity|].
    split; vm_compute; congruence. }
  assert (0 <= 10) as Hr by (vm_compute; congruence).
  assert (Z.of_nat (bitLength 10) <= max_array_index) as Hmax
    by (vm_compute; congruence).
  assert (2 <= 2 ^ 53) as Hk by (vm_compute; congruence).
  exact (X19_noise_keeps_bit_length (fun _ => number_0_5) 10 number_0_5 2
           Hr Hmax eq_refl Hk Hdraws).
Defined.

Lemma X20_witness :
  addNoiseToResponse (fun _ => number_0_5) 10 S754_nan = Returns 10.
Proof.
  assert (0 <= 10) as Hr by (vm_compute; congruence).
  exact (X20_no_flip_levels (fun _ => number_0_5) 10 S754_nan Hr I).
Defined.

End NoiseMore.

(** * Properties of the hexadecimal identifiers *)
Module HexFacts.

Import Hex.

Lemma string_app_nil_l s : "" +:+ s = s.
Proof. reflexivity. Qed.

Lemma string_app_cons_l c s t : String c s +:+ t = String c (s +:+ t).
Proof. reflexivity. Qed.

Lemma string_length_app s t :
  String.length (s +:+ t) = (String.length s + String.length t)%nat.
Proof.
  induction s as [|c s IH]; [done|]. rewrite string_app_cons_l. cbn. by rewrite IH.
Qed.

Lemma length_zeros n : String.length (zeros n) = n.
Proof. induction n as [|n IH]; [done|]. cbn. by rewrite IH. Qed.

Lemma length_padStart n s :
  String.length (padStart n s) = Nat.max n (String.length s).
Proof. unfold padStart. rewrite string_length_app, length_zeros. lia. Qed.

Lemma padStart_long n s : (n <= String.length s)%nat -> padStart n s = s.
Proof.
  intros Hlen. unfold padStart.
  replace (n - String.length s)%nat with 0%nat by lia. done.
Qed.

Lemma hex_digits_value_zeros n s :
  hex_digits_value (zeros n +:+ s) 0 = hex_digits_value s 0.
Proof. induction n as [|n IH]; [done|]. exact IH. Qed.

Lemma hex_digits_value_of_pos p rest acc :
  hex_digits_value (HexString.Raw.of_pos p rest) acc =
  hex_digits_value rest
    match acc with
    | N0 => Npos p
    | Npos v => Npos (HexString.pos_hex_app v p)
    end.
Proof.
  revert p rest acc. fix IH 1. intros p rest acc.
  do 4 try destruct p as [p|p|]; destruct acc; try reflexivity;
    cbn; rewrite IH; reflexivity.
Qed.

Lemma length_of_pos p rest :
  String.length (HexString.Raw.of_pos p rest) =
  ((Pos.to_nat (Pos.size p) + 3) / 4 + String.length rest)%nat.
Proof.
  revert p rest. fix IH 1. intros p rest.
  do 4 try destruct p as [p|p|]; try reflexivity;
    cbn [HexString.Raw.of_pos]; rewrite IH;
    cbn [String.length Pos.size];
    rewrite !Pos2Nat.inj_succ;
    generalize (Pos.to_nat (Pos.size p)); intros n;
    replace (S (S (S (S n))) + 3)%nat with (n + 3 + 1 * 4)%nat by lia;
    rewrite Nat.div_add by lia; lia.
Qed.

Lemma size_bound p n :
  Z.pos p < 2 ^ Z.of_nat n <-> (Pos.to_nat (Pos.size p) <= n)%nat.
Proof.
  pose proof (Pos.size_gt p) as Hgt. pose proof (Pos.size_le p) as Hle.
  apply Pos2Z.pos_lt_pos in Hgt. apply Pos2Z.pos_le_pos in Hle.
  rewrite Pos2Z.inj_pow in Hgt, Hle.
  assert (Z.pos p~0 = 2 * Z.pos p) as Hdouble by lia.
  set (k := Pos.size p) in *.
  replace (Pos.to_nat k) with (Z.to_nat (Z.pos k)) by apply Z2Nat.inj_pos.
  split.
  - intros Hlt.
    assert (2 ^ Z.pos k < 2 ^ (Z.of_nat n + 1)) as Hpow.
    { rewrite Z.pow_add_r by lia. change (2 ^ 1) with 2. lia. }
    apply Z.pow_lt_mono_r_iff in Hpow; lia.
  - intros Hk.
    assert (2 ^ Z.pos k <= 2 ^ Z.of_nat n)
      by (apply Z.pow_le_mono_r; lia).
    lia.
Qed.

Lemma toString16_value v :
  0 <= v -> hex_digits_value (toString16 v) 0 = Some (Z.to_N v).
Proof.
  destruct v as [|p|p]; [done| |lia]. intros _. cbn [toString16].
  by rewrite hex_digits_value_of_pos.
Qed.

Lemma toString16_nonempty v : toString16 v <> "".
Proof.
  destruct v as [|p|p]; [done| |done]. cbn [toString16].
  pose proof (length_of_pos p "") as Hlen. intros Heq.
  rewrite Heq in Hlen. change (String.length "") with 0%nat in Hlen.
  assert (1 <= (Pos.to_nat (Pos.size p) + 3) / 4)%nat.
  { apply Nat.div_le_lower_bound; lia. }
  lia.
Qed.

Lemma length_toString16 v :
  0 <= v ->
  (String.length (toString16 v) <= 64)%nat <-> v < 2 ^ 256.
Proof.
  destruct v as [|p|p]; [|intros _|lia].
  - intros _. cbn. split; [done|lia].
  - cbn [toString16]. rewrite length_of_pos. cbn [String.length].
    change 256 with (Z.of_nat 256). rewrite size_bound.
    generalize (Pos.to_nat (Pos.size p)). intros n.
    rewrite Nat.add_0_r. split; intros H.
    + destruct (Nat.le_gt_cases n 256) as [|Hgt]; [done|].
      assert (260 <= n + 3)%nat as H260 by lia.
      apply (Nat.Div0.div_le_mono _ _ 4) in H260.
      change (260 / 4)%nat with 65%nat in H260. lia.
    + assert (n + 3 <= 259)%nat as H259 by lia.
      apply (Nat.Div0.div_le_mono _ _ 4) in H259.
      change (259 / 4)%nat with 64%nat in H259. lia.
Qed.

Lemma hex_value_0x digits :
  digits <> "" ->
  hex_value ("0x" +:+ digits) = Z.of_N <$> hex_digits_value digits 0.
Proof. destruct digits; [done|]. by intros _. Qed.

Lemma padStart_nonempty n s : s <> "" -> padStart n s <> "".
Proof.
  intros Hs Hpad. apply (f_equal String.length) in Hpad.
  rewrite length_padStart in Hpad. destruct s; [done|]. cbn in Hpad. lia.
Qed.

Lemma hex_value_inv s v :
  hex_value s = Some v ->
  exists digits,
    s = "0x" +:+ digits /\ digits <> "" /\
    Z.of_N <$> hex_digits_value digits 0 = Some v.
Proof.
  destruct s as [|c0 s]; [done|].
  destruct (Ascii.eqb_spec c0 "0") as [->|Hne]; cycle 1.
  { by destruct c0 as [[] [] [] [] [] [] [] []]. }
  destruct s as [|c1 s]; [done|].
  destruct (Ascii.eqb_spec c1 "x") as [->|Hne]; cycle 1.
  { by destruct c1 as [[] [] [] [] [] [] [] []]. }
  destruct s as [|d digits]; [done|].
  intros Hv. by exists (String d digits).
Qed.

(** X21: [convertToBytes32] of a non-negative number is a [0x] literal
    that denotes the number again, and it has the 66 characters of a
    [bytes32] exactly when the number is below [2^256]: the padding never
    cuts, so a larger number gives a longer string. *)
Theorem X21_convertToBytes32_round_trip value :
  0 <= value ->
  hex_value (convertToBytes32 value) = Some value /\
  (String.length (convertToBytes32 value) = 66%nat <-> value < 2 ^ 256).
Proof.
  intros Hv. unfold convertToBytes32. split.
  - rewrite hex_value_0x by apply padStart_nonempty, toString16_nonempty.
    unfold padStart. rewrite hex_digits_value_zeros, toString16_value by done.
    cbn. f_equal. lia.
  - rewrite string_length_app, length_padStart. cbn [String.length].
    rewrite <- (length_toString16 value Hv). lia.
Qed.

(** X22: [formatDeviceId] is idempotent, returns at least 66 characters,
    and on a [0x] literal keeps the number it denotes. *)
Theorem X22_formatDeviceId_idempotent deviceId :
  formatDeviceId (formatDeviceId deviceId) = formatDeviceId deviceId /\
  (66 <= String.length (formatDeviceId deviceId))%nat /\
  (forall v, hex_value deviceId = Some v ->
             hex_value (formatDeviceId deviceId) = Some v).
Proof.
  split; [|split].
  - unfold formatDeviceId at 1.
    change (formatDeviceId deviceId) with
      (String "0" (String "x"
         (padStart 64 match deviceId with
                      | String "0" (String "x" rest) => rest
                      | _ => deviceId
                      end))).
    cbv iota. rewrite padStart_long; [done|].
    rewrite length_padStart. lia.
  - unfold formatDeviceId. rewrite string_length_app, length_padStart. cbn. lia.
  - intros v Hv.
    destruct (hex_value_inv _ _ Hv) as (digits & -> & Hne & Hval).
    unfold formatDeviceId.
    change ("0x" +:+ digits) with (String "0" (String "x" digits)).
    cbv iota.
    rewrite hex_value_0x by (by apply padStart_nonempty).
    unfold padStart. by rewrite hex_digits_value_zeros.
Qed.


Lemma X21_witness :
  hex_value (convertToBytes32 255) = Some 255.
Proof.
  assert (0 <= 255) as H by (vm_compute; congruence).
  exact (proj1 (X21_convertToBytes32_round_trip 255 H)).
Defined.

Lemma X22_witness :
  hex_value (formatDeviceId "0xff") = Some 255.
Proof.
  exact (proj2 (proj2 (X22_formatDeviceId_idempotent "0xff")) 255 eq_refl).
Defined.

End HexFacts.

(** * From the simulator through the service to the registry *)
Module ServiceFacts.

Import Registry RegistryFacts Hex HexFacts.

Section Facts.

Variable sha256 : string -> N.
Variable Poseidon : list Z -> Z.
Variable verifyProof : Groth16Proof -> PublicInputs -> bool.

#[local] Abbreviation exec := (Registry.exec verifyProof).
#[local] Abbreviation reachable := (Registry.reachable verifyProof).
#[local] Abbreviation generateCircuitInput :=
  (Commitment.generateCircuitInput sha256).
#[local] Abbreviation initialize := (Commitment.initialize Poseidon).
#[local] Abbreviation DeviceAuth := (Commitment.DeviceAuth Poseidon).

Lemma maxField_below_2_256 : Commitment.maxField < 2 ^ 256.
Proof. reflexivity. Qed.

Lemma convertToBytes32_bytes32 value :
  0 <= value < 2 ^ 256 ->
  hex_value (convertToBytes32 value) = Some value /\
  String.length (convertToBytes32 value) = 66%nat.
Proof.
  intros [Hv Hlt]. unfold convertToBytes32. split.
  - rewrite hex_value_0x by apply padStart_nonempty, toString16_nonempty.
    unfold padStart. rewrite hex_digits_value_zeros, toString16_value by done.
    cbn. f_equal. lia.
  - rewrite string_length_app, length_padStart. cbn [String.length].
    apply (length_toString16 value Hv) in Hlt. lia.
Qed.

Lemma authenticate_call_spec deviceId prf s0 s1 s2 :
  0 <= deviceId < 2 ^ 256 ->
  Service.authenticate_call deviceId prf [s0; s1; s2] =
    Some (CallAuthenticate deviceId prf
            {| input0 := s0; input1 := s1; input2 := s2 |}).
Proof.
  intros Hd. unfold Service.authenticate_call.
  destruct (convertToBytes32_bytes32 deviceId Hd) as [-> ->]. done.
Qed.

Lemma generateCircuitInput_signals this deviceId randomBytes :
  exists input this',
    generateCircuitInput (initialize this) deviceId randomBytes =
      Some (input, this') /\
    DeviceAuth (Commitment.in_deviceId input) (Commitment.in_challenge input)
               (Commitment.in_expectedHash input)
               (Commitment.in_response input) = true /\
    Commitment.publicSignals input =
      [Commitment.Fe deviceId;
       Commitment.Fe (Commitment.in_challenge input);
       Commitment.Fe (Commitment.in_expectedHash input)].
Proof.
  pose proof (CommitmentFacts.generateResponse_stable sha256 (initialize this)
                deviceId (Commitment.generateChallenge randomBytes))
    as Hstable.
  pose proof (CommitmentFacts.generateResponse_memoised sha256
                (initialize this) deviceId
                (Commitment.generateChallenge randomBytes)) as Hmemo.
  unfold Commitment.generateCircuitInput.
  destruct (Commitment.generateResponse sha256 (initialize this) deviceId
              (Commitment.generateChallenge randomBytes)) as [r this1].
  destruct Hmemo as (_ & Hpos & _).
  unfold Commitment.generateExpectedHash. rewrite Hpos.
  cbn [Commitment.poseidon Commitment.initialize].
  rewrite Hstable. cbn [mbind option_bind fst snd].
  eexists _, _. split; [done|]. split; [|done].
  cbn [Commitment.in_deviceId Commitment.in_challenge
       Commitment.in_expectedHash Commitment.in_response].
  apply CommitmentFacts.DeviceAuth_iff.
  apply (CommitmentFacts.computedHash_canonical Poseidon).
Qed.

(** X23: the service's honest run on an active device cannot fail on the
    binding check.  For an identifier below the field order and 31 random
    bytes, the simulator's circuit input satisfies the circuit, the first
    public signal is the identifier the service sends as [bytes32], and the
    registry's [authenticate] on the service's arguments does not revert:
    it logs one attempt and returns what the verifier says of the proof. *)
Theorem X23_service_call_passes_binding
    st env this deviceId randomBytes prf :
  reachable st ->
  isDeviceActive st deviceId = true ->
  0 <= deviceId < Commitment.maxField ->
  0 <= randomBytes < 2 ^ 248 ->
  exists input this' call,
    generateCircuitInput (initialize this) deviceId randomBytes =
      Some (input, this') /\
    DeviceAuth (Commitment.in_deviceId input) (Commitment.in_challenge input)
               (Commitment.in_expectedHash input)
               (Commitment.in_response input) = true /\
    Service.authenticate_call deviceId prf (Commitment.publicSignals input) =
      Some call /\
    let verdict :=
      verifyProof prf
        {| input0 := deviceId;
           input1 := randomBytes;
           input2 := Commitment.in_expectedHash input |} in
    exec env call st =
      Ok (VBool verdict) st [AuthenticationAttempt deviceId verdict].
Proof.
  intros Hreach Hactive Hd Hrb.
  destruct (CommitmentMore.generateCircuitInput_spec sha256 Poseidon this
              deviceId randomBytes Hd Hrb) as (Hgen & Hsat & Hsig).
  pose proof maxField_below_2_256 as Hfield.
  eexists _, _, _. split; [exact Hgen|].
  cbn [Commitment.in_deviceId Commitment.in_challenge
       Commitment.in_expectedHash Commitment.in_response].
  split; [exact Hsat|]. rewrite Hsig.
  rewrite authenticate_call_spec by lia. split; [done|].
  cbv zeta. rewrite exec_authenticate, authenticate_eq.
  destruct (reachable_invariant verifyProof st Hreach) as (-> & _).
  unfold isDeviceActive in Hactive. rewrite Hactive.
  cbn [negb input0]. by rewrite Z.eqb_refl.
Qed.

(** X25: a device whose identifier of 32 bytes is at or above the field
    order is never authenticated through the service, active as it may
    be: the circuit input is produced and satisfies the circuit, yet the
    first public signal is the identifier reduced into the field, so the
    registry's [authenticate] on the service's arguments reverts with
    "Device ID mismatch", whatever the proof. *)
Theorem X25_large_identifier_never_authenticates
    st env this deviceId randomBytes prf :
  reachable st ->
  isDeviceActive st deviceId = true ->
  Commitment.maxField <= deviceId < 2 ^ 256 ->
  exists input this' call,
    generateCircuitInput (initialize this) deviceId randomBytes =
      Some (input, this') /\
    DeviceAuth (Commitment.in_deviceId input) (Commitment.in_challenge input)
               (Commitment.in_expectedHash input)
               (Commitment.in_response input) = true /\
    Service.authenticate_call deviceId prf (Commitment.publicSignals input) =
      Some call /\
    exec env call st = Revert BindingMismatch.
Proof.
  intros Hreach Hactive Hd.
  destruct (generateCircuitInput_signals this deviceId randomBytes)
    as (input & this' & Hgen & Hsat & Hsig).
  pose proof CommitmentFacts.maxField_pos as Hpos.
  exists input, this'. rewrite Hsig.
  rewrite authenticate_call_spec by lia.
  eexists. split; [done|]. split; [done|]. split; [done|].
  rewrite exec_authenticate, authenticate_eq.
  destruct (reachable_invariant verifyProof st Hreach) as (-> & _).
  unfold isDeviceActive in Hactive. rewrite Hactive.
  cbn [negb input0].
  assert ((Commitment.Fe deviceId =? deviceId) = false) as ->; [|done].
  apply Z.eqb_neq. unfold Commitment.Fe.
  pose proof (Z.mod_pos_bound deviceId Commitment.maxField Hpos). lia.
Qed.

End Facts.

Lemma reachable_registered_large verifyProof :
  Registry.reachable verifyProof (Service.registered_large verifyProof).
Proof.
  exists 1, 2, deployed. split; [reflexivity|].
  apply steps_call; [apply steps_refl| |]; repeat split; vm_compute; congruence.
Qed.

Lemma X23_witness :
  exists input this' call,
    Commitment.generateCircuitInput Commitment.toy_sha256
      (Commitment.initialize Commitment.toy_Poseidon (Commitment.new_PUFSimulator "seed"))
      device1 34 = Some (input, this') /\
    Commitment.DeviceAuth Commitment.toy_Poseidon
      (Commitment.in_deviceId input) (Commitment.in_challenge input)
      (Commitment.in_expectedHash input) (Commitment.in_response input) =
      true /\
    Service.authenticate_call device1 proof1 (Commitment.publicSignals input) =
      Some call /\
    Registry.exec reject_all env2 call (registered1 reject_all) =
      Ok (VBool false) (registered1 reject_all)
         [AuthenticationAttempt device1 false].
Proof.
  assert (isDeviceActive (registered1 reject_all) device1 = true) as Hact
    by (vm_compute; reflexivity).
  assert (0 <= device1 < Commitment.maxField) as Hd
    by (split; vm_compute; congruence).
  assert (0 <= 34 < 2 ^ 248) as Hrb by (split; vm_compute; congruence).
  exact (X23_service_call_passes_binding Commitment.toy_sha256 Commitment.toy_Poseidon reject_all
           (registered1 reject_all) env2 (Commitment.new_PUFSimulator "seed")
           device1 34 proof1 (RegistryMore.reachable_registered1 reject_all) Hact Hd Hrb).
Defined.

Lemma X25_witness :
  exists input this' call,
    Commitment.generateCircuitInput Commitment.toy_sha256
      (Commitment.initialize Commitment.toy_Poseidon (Commitment.new_PUFSimulator "seed"))
      Service.device_large 34 = Some (input, this') /\
    Commitment.DeviceAuth Commitment.toy_Poseidon
      (Commitment.in_deviceId input) (Commitment.in_challenge input)
      (Commitment.in_expectedHash input) (Commitment.in_response input) =
      true /\
    Service.authenticate_call Service.device_large proof1
      (Commitment.publicSignals input) = Some call /\
    Registry.exec accept_all env2 call (Service.registered_large accept_all) =
      Revert BindingMismatch.
Proof.
  assert (isDeviceActive (Service.registered_large accept_all)
            Service.device_large = true) as Hact
    by (vm_compute; reflexivity).
  assert (Commitment.maxField <= Service.device_large < 2 ^ 256) as Hd
    by (split; vm_compute; congruence).
  exact (X25_large_identifier_never_authenticates Commitment.toy_sha256 Commitment.toy_Poseidon
           accept_all (Service.registered_large accept_all) env2
           (Commitment.new_PUFSimulator "seed") Service.device_large 34 proof1
           (reachable_registered_large accept_all) Hact Hd).
Defined.

End ServiceFacts.
